(** * Splunk HEC exporter client: a shallow embedding of
      exporter/splunkhecexporter/client.go

    The Go client is embedded as state-passing functions over an explicit
    [world]: the wait group counter, the pool of gzip writers, the requests
    handed to the HTTP client, the response bodies and a chronological
    trace of the effects performed.  Everything the client calls but does
    not define (the telemetry converters, the JSON encoder, gzip, the HTTP
    round trip) is an operation of a type class, so every statement below
    holds for all of their behaviours. *)

From Stdlib Require Import ZArith List String Ascii Bool Lia.
From Stdlib Require Import DecimalString DecimalPos.
From Stdlib.Strings Require Import Byte.
From stdpp Require Import base tactics option list.
Import ListNotations.

Local Open Scope string_scope.
Local Open Scope list_scope.
Local Open Scope Z_scope.

(** ** Bytes and Go values *)

Definition bytes := list byte.

(** [len] is Go's builtin on a buffer: an [int]. *)
Definition len {A} (l : list A) : Z := Z.of_nat (List.length l).

(** The separator written after every event: two CRLF pairs. *)
Definition CRLF2 : bytes := [x0d; x0a; x0d; x0a].

(** ** Telemetry data (go.opentelemetry.io/collector/consumer/pdata,
       internal/splunk) *)

Class PData := {
  Event : Type;        (* splunk.Event *)
  Metrics : Type;      (* pdata.Metrics *)
  Traces : Type;       (* pdata.Traces *)
  Logs : Type;         (* pdata.Logs *)
  logIndex : Type      (* position of a log record inside pdata.Logs *)
}.

(** Go [error] values the client builds or passes on.  [errorString] stands
    for errors of the libraries and of [fmt.Errorf]; the two wrappers are
    those of the collector's [consumererror] package. *)
Inductive error `{PData} : Type :=
| errorString (msg : string)
| permanent (e : error)                     (* consumererror.Permanent *)
| partialLogs (e : error) (failed : Logs).  (* consumererror.PartialLogsError *)

Definition is_permanent `{PData} (e : error) : bool :=
  match e with permanent _ => true | _ => false end.

(** One element of the channel returned by [chunkEvents]; the client reads
    its fields [buf], [index] and [err]. *)
Record eventsBuf `{PData} := EventsBuf {
  buf : bytes;
  index : logIndex;
  err : option error
}.

Arguments EventsBuf {_} _ _ _.

(** The two fields of [Config] that the client reads. *)
Record Config := {
  DisableCompression : bool;
  MaxContentLength : Z
}.

(** The converters and accessors the client calls on metrics and traces,
    and the JSON marshaller behind [json.Encoder]. *)
Class Converters `{PData} := {
  metricDataToSplunk : Config -> Metrics -> list Event * Z;
  traceDataToSplunk : Config -> Traces -> list Event * Z;
  MetricAndDataPointCount : Metrics -> Z * Z;
  SpanCount : Traces -> Z;
  json_Marshal : Event -> string + bytes
}.

(** The methods of [logDataWrapper] the client calls.  The channel of
    [chunkEvents] is read in order until it is closed: a list. *)
Class LogData `{PData} := {
  chunkEvents : Config -> Logs -> list eventsBuf;
  numLogs : Logs -> logIndex -> Z;
  subLogs : Logs -> logIndex -> Logs
}.

(** ** HTTP and gzip *)

(** A request as the client shapes it: the body and whether this call set
    [Content-Encoding: gzip].  The static headers of [c.headers] are the
    same on every request and are left out. *)
Record request := Request {
  req_body : bytes;
  req_gzip : bool
}.

(** A response: its status code, the bytes of its body, and where reading
    the body breaks off: [Some k] is a body whose reads fail once [k] bytes
    were read, [None] a body that reads to its end. *)
Record response := Response {
  StatusCode : Z;
  Body : bytes;
  ReadFault : option nat
}.

(** What the surroundings decide: whether the n-th request can be built,
    how the n-th round trip ends, what a gzip writer emits and whether its
    writes and its close fail. *)
Class Platform := {
  request_error : nat -> option string;
  round_trip : nat -> request -> string + response;
  gzip : bytes -> bytes;          (* Reset; Write p; Close *)
  gzip_flushed : bytes -> bytes;  (* Reset; Write p; Flush *)
  write_error : bytes -> option string;
  close_error : bytes -> option string
}.

(** A [*gzip.Writer] together with the buffer it was last reset to:
    [gz_in] is the input accepted since that reset, [gz_out] the bytes its
    buffer holds. *)
Record gzip_Writer := GzipWriter {
  gz_in : bytes;
  gz_out : bytes
}.

(** A response body: the bytes not read yet, after how many more bytes a
    read fails (if it does), and whether the body was closed. *)
Record reader := Reader {
  unread : bytes;
  fault : option nat;
  closed : bool
}.

(** ** Effects *)

Inductive event :=
| EvWgAdd | EvWgDone | EvWgWait
| EvPoolGet | EvPoolPut
| EvGzReset | EvGzWrite (p : bytes) | EvGzFlush | EvGzClose
| EvCancel
| EvDo (req : request).

Record world := World {
  wg : Z;                      (* counter of c.wg *)
  zippers : list gzip_Writer;   (* idle writers of c.zippers *)
  built : nat;                 (* calls of http.NewRequestWithContext *)
  wire : list request;         (* requests given to c.client.Do, oldest first *)
  bodies : list reader;        (* response bodies, by handle *)
  log : list event             (* effects, oldest first *)
}.

Definition M (A : Type) : Type := world -> A * world.

Definition ret {A} (a : A) : M A := fun w => (a, w).

Definition bind {A B} (m : M A) (k : A -> M B) : M B :=
  fun w => let (a, w') := m w in k a w'.

Notation "x <- m ;; k" := (bind m (fun x => k))
  (at level 100, m at next level, right associativity).
Notation "m ;;; k" := (bind m (fun _ => k))
  (at level 100, right associativity).

Definition emit (e : event) : M unit := fun w =>
  (tt, World (wg w) (zippers w) (built w) (wire w) (bodies w) (log w ++ [e])).

(** [c.wg.Add(delta)] and [c.wg.Done()]. *)
Definition wg_Add (delta : Z) : M unit := fun w =>
  emit EvWgAdd
    (World (wg w + delta) (zippers w) (built w) (wire w) (bodies w) (log w)).

Definition wg_Done : M unit := fun w =>
  emit EvWgDone
    (World (wg w - 1) (zippers w) (built w) (wire w) (bodies w) (log w)).

(** [gzip.NewWriter]: what the pool's [New] hands out when it is empty. *)
Definition gzip_NewWriter : gzip_Writer := GzipWriter [] [].

(** [zippers.Get()]: any idle writer, in whatever state it was put back. *)
Definition zippers_Get : M gzip_Writer := fun w =>
  match zippers w with
  | z :: idle =>
      (z, snd (emit EvPoolGet
                 (World (wg w) idle (built w) (wire w) (bodies w) (log w))))
  | [] => (gzip_NewWriter, snd (emit EvPoolGet w))
  end.

Definition zippers_Put (z : gzip_Writer) : M unit := fun w =>
  emit EvPoolPut
    (World (wg w) (z :: zippers w) (built w) (wire w) (bodies w) (log w)).

(** Writer operations.  Both call sites reset the writer to an empty
    buffer, so a reset leaves no input and no output. *)
Definition gz_Reset (z : gzip_Writer) : M gzip_Writer :=
  emit EvGzReset ;;; ret (GzipWriter [] []).

Definition gz_Write `{Platform} (z : gzip_Writer) (p : bytes)
  : M (gzip_Writer * option string) :=
  emit (EvGzWrite p) ;;;
  match write_error p with
  | Some msg => ret (z, Some msg)
  | None => ret (GzipWriter (gz_in z ++ p) (gz_out z), None)
  end.

Definition gz_Flush `{Platform} (z : gzip_Writer) : M gzip_Writer :=
  emit EvGzFlush ;;; ret (GzipWriter (gz_in z) (gzip_flushed (gz_in z))).

Definition gz_Close `{Platform} (z : gzip_Writer)
  : M (gzip_Writer * option string) :=
  emit EvGzClose ;;;
  match close_error (gz_in z) with
  | Some msg => ret (z, Some msg)
  | None => ret (GzipWriter (gz_in z) (gzip (gz_in z)), None)
  end.

(** [http.NewRequestWithContext(ctx, "POST", c.url.String(), body)] followed
    by the header loop and the [Content-Encoding] marker. *)
Definition http_NewRequest `{Platform} (body : bytes) (compressed : bool)
  : M (string + request) := fun w =>
  let w' := World (wg w) (zippers w) (S (built w)) (wire w) (bodies w) (log w) in
  match request_error (built w) with
  | Some msg => (inl msg, w')
  | None => (inr (Request body compressed), w')
  end.

(** [c.client.Do(req)]: on success the response body is open and unread;
    the handle is its position in [bodies]. *)
Definition client_Do `{Platform} (req : request) : M (string + (Z * nat)) :=
  fun w =>
  let n := List.length (wire w) in
  let w1 := World (wg w) (zippers w) (built w) (wire w ++ [req]) (bodies w)
                  (log w ++ [EvDo req]) in
  match round_trip n req with
  | inl msg => (inl msg, w1)
  | inr resp =>
      (inr (StatusCode resp, List.length (bodies w)),
       World (wg w1) (zippers w1) (built w1) (wire w1)
             (bodies w1 ++ [Reader (Body resp) (ReadFault resp) false]) (log w1))
  end.

Definition on_body (f : reader -> reader) (h : nat) : M unit := fun w =>
  (tt, World (wg w) (zippers w) (built w) (wire w) (alter f h (bodies w)) (log w)).

(** [io.Copy(ioutil.Discard, resp.Body)], whose results are dropped: the
    copy reads until the end of the body or until the first read error,
    and what lies behind a failing read stays unread. *)
Definition io_Copy_Discard : nat -> M unit :=
  on_body (fun r =>
    match fault r with
    | None => Reader [] None (closed r)
    | Some k => Reader (drop k (unread r)) (Some 0%nat) (closed r)
    end).

(** [resp.Body.Close()]. *)
Definition Body_Close : nat -> M unit :=
  on_body (fun r => Reader (unread r) (fault r) true).

(** ** fmt.Errorf("HTTP %d %q", code, http.StatusText(code)) *)

(** [%d] on an [int]. *)
Definition itoa (n : Z) : string := NilZero.string_of_int (Z.to_int n).

Definition dquote : ascii := "034"%char.
Definition bslash : ascii := "092"%char.

Definition hex_digit (n : nat) : ascii :=
  nth n (list_ascii_of_string "0123456789abcdef") "0"%char.

(** [%q] is [strconv.Quote]; this is its behaviour on ASCII text, which is
    all that [http.StatusText] returns. *)
Definition quote_ascii (c : ascii) : string :=
  let n := nat_of_ascii c in
  if (n =? 34)%nat then String bslash (String dquote "")
  else if (n =? 92)%nat then String bslash (String bslash "")
  else if (n =? 7)%nat then "\a"
  else if (n =? 8)%nat then "\b"
  else if (n =? 12)%nat then "\f"
  else if (n =? 10)%nat then "\n"
  else if (n =? 13)%nat then "\r"
  else if (n =? 9)%nat then "\t"
  else if (n =? 11)%nat then "\v"
  else if ((n <? 32) || (126 <? n))%nat then
    String bslash (String "x" (String (hex_digit (n / 16))
                              (String (hex_digit (n mod 16)) "")))
  else String c "".

Fixpoint quote_body (s : string) : string :=
  match s with
  | EmptyString => String dquote ""
  | String c s' => (quote_ascii c ++ quote_body s')%string
  end.

Definition strconv_Quote (s : string) : string := String dquote (quote_body s).

(** The table behind [http.StatusText]. *)
Definition statusText : list (Z * string) :=
  [ (100, "Continue"); (101, "Switching Protocols"); (102, "Processing");
    (103, "Early Hints");
    (200, "OK"); (201, "Created"); (202, "Accepted");
    (203, "Non-Authoritative Information"); (204, "No Content");
    (205, "Reset Content"); (206, "Partial Content"); (207, "Multi-Status");
    (208, "Already Reported"); (226, "IM Used");
    (300, "Multiple Choices"); (301, "Moved Permanently"); (302, "Found");
    (303, "See Other"); (304, "Not Modified"); (305, "Use Proxy");
    (307, "Temporary Redirect"); (308, "Permanent Redirect");
    (400, "Bad Request"); (401, "Unauthorized"); (402, "Payment Required");
    (403, "Forbidden"); (404, "Not Found"); (405, "Method Not Allowed");
    (406, "Not Acceptable"); (407, "Proxy Authentication Required");
    (408, "Request Timeout"); (409, "Conflict"); (410, "Gone");
    (411, "Length Required"); (412, "Precondition Failed");
    (413, "Request Entity Too Large"); (414, "Request URI Too Long");
    (415, "Unsupported Media Type"); (416, "Requested Range Not Satisfiable");
    (417, "Expectation Failed"); (418, "I'm a teapot");
    (421, "Misdirected Request"); (422, "Unprocessable Entity");
    (423, "Locked"); (424, "Failed Dependency"); (425, "Too Early");
    (426, "Upgrade Required"); (428, "Precondition Required");
    (429, "Too Many Requests"); (431, "Request Header Fields Too Large");
    (451, "Unavailable For Legal Reasons");
    (500, "Internal Server Error"); (501, "Not Implemented");
    (502, "Bad Gateway"); (503, "Service Unavailable");
    (504, "Gateway Timeout"); (505, "HTTP Version Not Supported");
    (506, "Variant Also Negotiates"); (507, "Insufficient Storage");
    (508, "Loop Detected"); (510, "Not Extended");
    (511, "Network Authentication Required") ].

Fixpoint table_get (code : Z) (t : list (Z * string)) : option string :=
  match t with
  | [] => None
  | (k, v) :: t' => if k =? code then Some v else table_get code t'
  end.

Definition StatusText (code : Z) : string :=
  match table_get code statusText with
  | Some text => text
  | None => ""
  end.

Definition http_status_message (code : Z) : string :=
  ("HTTP " ++ itoa code ++ " " ++ strconv_Quote (StatusText code))%string.

(** [http.StatusOK] and [http.StatusMultipleChoices]. *)
Definition StatusOK : Z := 200.
Definition StatusMultipleChoices : Z := 300.

(** The test of lines 87 and 150: Splunk accepts all 2XX codes. *)
Definition rejected (code : Z) : bool :=
  (code <? StatusOK) || (code >=? StatusMultipleChoices).

Section Client.
Context `{PD : PData} {Conv : Converters} {LD : LogData} {Plat : Platform}.

(** ** client.go *)

Definition numMetricPoint (md : Metrics) : Z :=
  let '(_, numPoints) := MetricAndDataPointCount md in numPoints.

Definition getReader (b : bytes) (disableCompression : bool)
  : M (bytes * bool * option error) :=
  if negb disableCompression && (len b >? 1500) then
    w <- zippers_Get ;;
    p <-
      (w <- gz_Reset w ;;
       p <- gz_Write w b ;;
       let '(w, werr) := p in
       match werr with
       | None =>
           p <- gz_Close w ;;
           let '(w, cerr) := p in
           match cerr with
           | None => ret (w, (gz_out w, true, None))
           | Some msg => ret (w, (b, false, Some (errorString msg)))
           end
       | Some msg => ret (w, (b, false, Some (errorString msg)))
       end) ;;
    let '(w, r) := p in
    (* defer zippers.Put(w) *)
    zippers_Put w ;;; ret r
  else ret (b, false, None).

(** [encoder.Encode(e)] on a [json.Encoder]: the JSON encoding of [e]
    followed by a newline character. *)
Definition Encoder_Encode (e : Event) : string + bytes :=
  match json_Marshal e with
  | inl msg => inl msg
  | inr js => inr (js ++ [x0a])
  end.

(** The loop shared by [encodeBodyEvents] and [encodeBody]: the buffer
    after all events, or the first encoding error. *)
Fixpoint encode_events (evs : list Event) (buf : bytes) : string + bytes :=
  match evs with
  | [] => inr buf
  | e :: evs' =>
      match Encoder_Encode e with
      | inl msg => inl msg
      | inr js => encode_events evs' (buf ++ js ++ CRLF2)
      end
  end.

Definition encodeBodyEvents (evs : list Event) (disableCompression : bool)
  : M (bytes * bool * option error) :=
  match encode_events evs [] with
  | inl msg => ret ([], false, Some (errorString msg))
  | inr buf => getReader buf disableCompression
  end.

Definition encodeBody (dps : list Event) (disableCompression : bool)
  : M (bytes * bool * option error) :=
  match encode_events dps [] with
  | inl msg => ret ([], false, Some (errorString msg))
  | inr buf => getReader buf disableCompression
  end.

Definition postEvents (events : bytes) (compressed : bool) : M (option error) :=
  r <- http_NewRequest events compressed ;;
  match r with
  | inl msg => ret (Some (permanent (errorString msg)))
  | inr req =>
      r <- client_Do req ;;
      match r with
      | inl msg => ret (Some (errorString msg))
      | inr (code, h) =>
          io_Copy_Discard h ;;;
          Body_Close h ;;;
          if rejected code
          then ret (Some (errorString (http_status_message code)))
          else ret None
      end
  end.

Definition sendSplunkEvents (cfg : Config) (splunkEvents : list Event)
  : M (option error) :=
  p <- encodeBodyEvents splunkEvents (DisableCompression cfg) ;;
  let '(body, compressed, err) := p in
  match err with
  | Some e => ret (Some (permanent e))
  | None => postEvents body compressed
  end.

Definition pushMetricsData (cfg : Config) (md : Metrics) : M (Z * option error) :=
  wg_Add 1 ;;;
  r <-
    (let '(splunkDataPoints, numDroppedTimeseries) := metricDataToSplunk cfg md in
     if len splunkDataPoints =? 0 then ret (numDroppedTimeseries, None)
     else
       p <- encodeBody splunkDataPoints (DisableCompression cfg) ;;
       let '(body, compressed, err) := p in
       match err with
       | Some e => ret (numMetricPoint md, Some (permanent e))
       | None =>
           r <- http_NewRequest body compressed ;;
           match r with
           | inl msg => ret (numMetricPoint md, Some (permanent (errorString msg)))
           | inr req =>
               r <- client_Do req ;;
               match r with
               | inl msg => ret (numMetricPoint md, Some (errorString msg))
               | inr (code, h) =>
                   io_Copy_Discard h ;;;
                   Body_Close h ;;;
                   if rejected code
                   then ret (numMetricPoint md,
                             Some (errorString (http_status_message code)))
                   else ret (numDroppedTimeseries, None)
               end
           end
       end) ;;
  (* defer c.wg.Done() *)
  wg_Done ;;; ret r.

Definition pushTraceData (cfg : Config) (td : Traces) : M (Z * option error) :=
  wg_Add 1 ;;;
  r <-
    (let '(splunkEvents, numDroppedSpans) := traceDataToSplunk cfg td in
     if len splunkEvents =? 0 then ret (numDroppedSpans, None)
     else
       err <- sendSplunkEvents cfg splunkEvents ;;
       match err with
       | Some e => ret (SpanCount td, Some e)
       | None => ret (numDroppedSpans, None)
       end) ;;
  wg_Done ;;; ret r.

(** The body of [for chunk := range chunkCh]: the chunks still to come, the
    gzip writer of this push, and the values returned. *)
Fixpoint range_chunks (cfg : Config) (ld : Logs) (chunkCh : list eventsBuf)
    (gzipWriter : gzip_Writer) : M (gzip_Writer * (Z * option error)) :=
  match chunkCh with
  | [] => ret (gzipWriter, (0, None))
  | chunk :: rest =>
      match err chunk with
      | Some e => ret (gzipWriter, (numLogs ld (index chunk), Some e))
      | None =>
          if len (buf chunk) =? 0 then range_chunks cfg ld rest gzipWriter
          else if (len (buf chunk) <=? 1500) || DisableCompression cfg then
            perr <- postEvents (buf chunk) false ;;
            match perr with
            | Some e =>
                ret (gzipWriter,
                     (numLogs ld (index chunk),
                      Some (partialLogs e (subLogs ld (index chunk)))))
            | None => range_chunks cfg ld rest gzipWriter
            end
          else
            p <- gz_Write gzipWriter (buf chunk) ;;
            let '(gzipWriter, werr) := p in
            match werr with
            | Some msg =>
                ret (gzipWriter,
                     (numLogs ld (index chunk), Some (permanent (errorString msg))))
            | None =>
                gzipWriter <- gz_Flush gzipWriter ;;
                perr <- postEvents (gz_out gzipWriter) true ;;
                match perr with
                | Some e =>
                    ret (gzipWriter,
                         (numLogs ld (index chunk),
                          Some (partialLogs e (subLogs ld (index chunk)))))
                | None =>
                    (* gzipBuf.Reset(); gzipWriter.Reset(gzipBuf) *)
                    gzipWriter <- gz_Reset gzipWriter ;;
                    range_chunks cfg ld rest gzipWriter
                end
            end
      end
  end.

Definition pushLogData (cfg : Config) (ld : Logs) : M (Z * option error) :=
  wg_Add 1 ;;;
  gzipWriter <- zippers_Get ;;
  gzipWriter <- gz_Reset gzipWriter ;;
  let chunkCh := chunkEvents cfg ld in
  p <- range_chunks cfg ld chunkCh gzipWriter ;;
  let '(gzipWriter, r) := p in
  (* deferred calls, last registered first *)
  emit EvCancel ;;;
  p <- gz_Close gzipWriter ;;
  zippers_Put (fst p) ;;;
  wg_Done ;;;
  ret r.

(** [c.wg.Wait()] returns only at counter zero; [None] is a call that does
    not return in this world. *)
Definition wg_Wait : M (option unit) := fun w =>
  if wg w =? 0 then (Some tt, snd (emit EvWgWait w)) else (None, w).

Definition stop : M (option (option error)) :=
  waited <- wg_Wait ;;
  match waited with
  | Some _ => ret (Some None)
  | None => ret None
  end.

Definition start : M (option error) := ret None.

End Client.

(** ** Observations on a run *)

(** The effects a computation adds to the trace. *)
Definition trace {A} (m : M A) (w : world) : list event :=
  drop (List.length (log w)) (log (snd (m w))).

(** The world in which the loop of [pushLogData] starts: the push is
    registered, a writer was taken from the pool and reset. *)
Definition entered (w : world) : world :=
  World (wg w + 1) (tail (zippers w)) (built w) (wire w) (bodies w)
        (log w ++ [EvWgAdd; EvPoolGet; EvGzReset]).

(** The world after a request was handed to the HTTP client. *)
Definition sent_world (w : world) (req : request) (new : list reader) : world :=
  World (wg w) (zippers w) (S (built w)) (wire w ++ [req])
        (bodies w ++ new) (log w ++ [EvDo req]).

(** The world after [getReader] compressed, or tried to: the borrowed
    writer is back on top of the pool. *)
Definition zipped_world (w : world) (z : gzip_Writer) (tr : list event) : world :=
  World (wg w) (z :: tail (zippers w)) (built w) (wire w) (bodies w)
        (log w ++ EvPoolGet :: EvGzReset :: tr ++ [EvPoolPut]).

(** A push that did nothing but register and unregister itself. *)
Definition only_registered (w w' : world) : Prop :=
  wg w' = wg w /\ zippers w' = zippers w /\ built w' = built w /\
  wire w' = wire w /\ bodies w' = bodies w /\
  log w' = log w ++ [EvWgAdd; EvWgDone].

(** The writer after the deferred [gzipWriter.Close()], whose error is
    dropped. *)
Definition closed_writer `{Platform} (z : gzip_Writer) : gzip_Writer :=
  match close_error (gz_in z) with
  | Some _ => z
  | None => GzipWriter (gz_in z) (gzip (gz_in z))
  end.

(** The world [pushLogData] leaves once its deferred calls have run:
    cancel, close the writer, put it back, unregister. *)
Definition departed `{Platform} (z : gzip_Writer) (w : world) : world :=
  World (wg w - 1) (closed_writer z :: zippers w) (built w) (wire w) (bodies w)
        (log w ++ [EvCancel; EvGzClose; EvPoolPut; EvWgDone]).

(** The body and the marker [pushLogData] puts on the wire for a chunk. *)
Definition chunk_wire `{PData} `{Platform} (cfg : Config) (chunk : eventsBuf)
  : request :=
  if (len (buf chunk) <=? 1500) || DisableCompression cfg
  then Request (buf chunk) false
  else Request (gzip_flushed (buf chunk)) true.

(** ** Use of the pool by one operation

    The writer an operation holds is absent, borrowed and not yet reset, or
    reset.  [pool_step] refuses a second [Get], any use before a reset, and
    a [Put] of nothing. *)
Inductive holding := Nothing | Borrowed | Ready.

Definition pool_step (st : holding) (e : event) : option holding :=
  match e with
  | EvPoolGet => match st with Nothing => Some Borrowed | _ => None end
  | EvGzReset => match st with Nothing => None | _ => Some Ready end
  | EvGzWrite _ | EvGzFlush | EvGzClose =>
      match st with Ready => Some Ready | _ => None end
  | EvPoolPut => match st with Nothing => None | _ => Some Nothing end
  | _ => Some st
  end.

Fixpoint pool_run (st : holding) (tr : list event) : option holding :=
  match tr with
  | [] => Some st
  | e :: tr' =>
      match pool_step st e with
      | Some st' => pool_run st' tr'
      | None => None
      end
  end.

(** Every writer taken is reset before use and was put back at the end. *)
Definition disciplined (tr : list event) : Prop :=
  pool_run Nothing tr = Some Nothing.

(** ** Goroutines sharing the wait group

    A goroutine is the list of effects it still has to perform; one step
    performs the first effect of one goroutine.  [Wait] can be performed
    only at counter zero. *)
Record system := System {
  counter : Z;
  threads : list (list event)
}.

Definition after (c : Z) (e : event) : Z :=
  match e with
  | EvWgAdd => c + 1
  | EvWgDone => c - 1
  | _ => c
  end.

Definition enabled (c : Z) (e : event) : Prop :=
  e = EvWgWait -> c = 0.

Inductive step : system -> nat -> event -> system -> Prop :=
| step_thread s i e rest :
    threads s !! i = Some (e :: rest) ->
    enabled (counter s) e ->
    step s i e (System (after (counter s) e) (<[i := rest]> (threads s))).

Inductive reachable (s0 : system) : system -> Prop :=
| reach_start : reachable s0 s0
| reach_step s i e s' : reachable s0 s -> step s i e s' -> reachable s0 s'.

Definition is_Add (e : event) : bool :=
  match e with EvWgAdd => true | _ => false end.
Definition is_Done (e : event) : bool :=
  match e with EvWgDone => true | _ => false end.

(** A goroutine is in flight when it has registered with the wait group
    and has not yet called [Done]. *)
Definition in_flight (todo : list event) : bool :=
  existsb is_Done todo && negb (existsb is_Add todo).

(** What a goroutine still owes the counter: the [Done] calls it has left
    minus the [Add] calls it has left. *)
Fixpoint pending (todo : list event) : Z :=
  match todo with
  | [] => 0
  | e :: todo' =>
      (if is_Done e then 1 else 0) - (if is_Add e then 1 else 0) + pending todo'
  end.

Fixpoint owed (ts : list (list event)) : Z :=
  match ts with
  | [] => 0
  | p :: ts' => pending p + owed ts'
  end.

(** Where a goroutine stands: it owes nothing and is not in flight, or it
    owes one [Done] and is in flight. *)
Definition standing (p : list event) : Prop :=
  (pending p = 0 /\ in_flight p = false) \/
  (pending p = 1 /\ in_flight p = true).

Definition stop_program : list event := [EvWgWait].

Section Programs.
Context `{PD : PData} {Conv : Converters} {LD : LogData} {Plat : Platform}.

(** The effects of one push, run from some world. *)
Inductive push_program : list event -> Prop :=
| prog_metrics cfg md w : push_program (trace (pushMetricsData cfg md) w)
| prog_traces cfg td w : push_program (trace (pushTraceData cfg td) w)
| prog_logs cfg ld w : push_program (trace (pushLogData cfg ld) w).

Definition goroutine (p : list event) : Prop :=
  push_program p \/ p = stop_program.

(** What holds in every state the goroutines can reach. *)
Definition balanced (s : system) : Prop :=
  counter s = owed (threads s) /\
  Forall (fun p => exists q pre, goroutine q /\ q = pre ++ p) (threads s).

End Programs.

(** ** Decoding a wire body

    The receiving side as the specification describes it: un-gzip if
    compressed, split on the separator, parse each JSON object. *)
Class Decoder `{PData} := {
  gunzip : bytes -> option bytes;
  json_Unmarshal : bytes -> option Event
}.

Definition is_CRLF2 (c1 c2 c3 c4 : byte) : bool :=
  Byte.eqb c1 x0d && Byte.eqb c2 x0a && Byte.eqb c3 x0d && Byte.eqb c4 x0a.

Fixpoint split_events (b cur : bytes) : list bytes :=
  match b with
  | [] => match cur with [] => [] | _ => [rev cur] end
  | c1 :: tl =>
      match tl with
      | c2 :: c3 :: c4 :: rest =>
          if is_CRLF2 c1 c2 c3 c4 then rev cur :: split_events rest []
          else split_events tl (c1 :: cur)
      | _ => split_events tl (c1 :: cur)
      end
  end.

Fixpoint parse_events `{Decoder} (pieces : list bytes) : option (list Event) :=
  match pieces with
  | [] => Some []
  | p :: ps =>
      match json_Unmarshal p, parse_events ps with
      | Some e, Some es => Some (e :: es)
      | _, _ => None
      end
  end.

Definition decode_body `{Decoder} (body : bytes) (compressed : bool)
  : option (list Event) :=
  match (if compressed then gunzip body else Some body) with
  | Some raw => parse_events (split_events raw [])
  | None => None
  end.

(** What the round trip needs of the codecs: gunzip inverts gzip, a JSON
    encoding has no carriage return (JSON escapes control characters), and
    the parser reads back an encoding followed by a newline. *)
Class DecoderLaws `{PData} {Conv : Converters} {Plat : Platform} {Dec : Decoder}
  : Prop := {
  gunzip_gzip : forall b, gunzip (gzip b) = Some b;
  marshal_no_CR : forall e js, json_Marshal e = inr js -> ~ In x0d js;
  unmarshal_line :
    forall e js, json_Marshal e = inr js -> json_Unmarshal (js ++ [x0a]) = Some e
}.

(** The body in the words of the specification: for every event its JSON
    serialization followed by the separator. *)
Fixpoint spec_body `{Converters} (evs : list Event) : option bytes :=
  match evs with
  | [] => Some []
  | e :: evs' =>
      match json_Marshal e, spec_body evs' with
      | inr js, Some b => Some (js ++ CRLF2 ++ b)
      | _, _ => None
      end
  end.

(** ** The chunk producer of the logs path *)

Section ChunkProducer.
Variables E Me Tr R : Type.

(** The encoding of one log record, separator included, or the error of
    its encoder. *)
Variable encode_record : Config -> R -> string + bytes.

(** Modelled from the spec: the batch of the logs path, whose type lives in
    the file of [logDataWrapper], which is not part of client.go.  A batch
    is an ordered sequence of records and a chunk's index is the ordinal of
    its first record. *)
Definition logsPData : PData :=
  {| Event := E; Metrics := Me; Traces := Tr; Logs := list R; logIndex := nat |}.

#[local] Existing Instance logsPData.

(** Modelled from the spec: the chunk producer behind [chunkEvents], which
    is not part of client.go.  Records are serialized into an accumulating
    buffer; a chunk is cut whenever appending the next record would exceed
    the maximum content length, and when the input is exhausted; an
    encoding error ends the sequence with one chunk that carries the error
    and stands for every record not handed over yet.  Each chunk comes with
    the records it accounts for. *)
Fixpoint produce (cfg : Config) (recs : list R) (start : nat) (acc : bytes)
    (held : list R) : list (eventsBuf * list R) :=
  match recs with
  | [] => [(EventsBuf acc start None, held)]
  | r :: recs' =>
      match encode_record cfg r with
      | inl msg =>
          [(EventsBuf [] start (Some (permanent (errorString msg))),
            held ++ r :: recs')]
      | inr e =>
          if len acc + len e >? MaxContentLength cfg
          then (EventsBuf acc start None, held)
               :: produce cfg recs' (start + List.length held)%nat e [r]
          else produce cfg recs' start (acc ++ e) (held ++ [r])
      end
  end.

(** Modelled from the spec: the chunk sequence of a whole batch, which the
    producer starts with an empty buffer at the first record. *)
Definition chunks_of (cfg : Config) (ld : list R) : list (eventsBuf * list R) :=
  produce cfg ld 0%nat [] [].

(** Modelled from the spec: [chunkEvents], [numLogs] and [subLogs] of
    [logDataWrapper], which are not part of client.go.  The remainder from
    an index onward is the batch without the records before it, and the
    count is the number of records of that remainder. *)
Definition specLogData : LogData :=
  {| chunkEvents := fun cfg ld => map fst (chunks_of cfg ld);
     numLogs := fun ld from => len (drop from ld);
     subLogs := fun ld from => drop from ld |}.

End ChunkProducer.

(** ** A small instance to run the client on

    Events are booleans with their JSON literals; a batch of metrics or of
    spans is the list of its events; a log record is its encoded text. *)
Module Toy.

Definition json_true : bytes := [x74; x72; x75; x65].
Definition json_false : bytes := [x66; x61; x6c; x73; x65].

Definition marshal (e : bool) : string + bytes :=
  inr (if e then json_true else json_false).

Fixpoint bytes_eqb (a b : bytes) : bool :=
  match a, b with
  | [], [] => true
  | x :: a', y :: b' => Byte.eqb x y && bytes_eqb a' b'
  | _, _ => false
  end.

Definition unmarshal (p : bytes) : option bool :=
  if bytes_eqb p (json_true ++ [x0a]) then Some true
  else if bytes_eqb p (json_false ++ [x0a]) then Some false
  else None.

Definition pdata : PData := logsPData bool (list bool) (list bool) bytes.

#[local] Existing Instance pdata.

Definition converters : Converters :=
  {| metricDataToSplunk := fun _ (md : Metrics) => (md, 0);
     traceDataToSplunk := fun _ (td : Traces) => (td, 0);
     MetricAndDataPointCount := fun md => (1, len md);
     SpanCount := fun td => len td;
     json_Marshal := marshal |}.

Definition logdata : LogData :=
  specLogData bool (list bool) (list bool) bytes (fun _ r => inr r).

(** A stored "compression": a two byte magic and the data. *)
Definition platform (rt : nat -> string + response) : Platform :=
  {| request_error := fun _ => None;
     round_trip := fun n _ => rt n;
     gzip := fun b => x1f :: x8b :: b;
     gzip_flushed := fun b => x1f :: x8b :: b;
     write_error := fun _ => None;
     close_error := fun _ => None |}.

Definition decoder : Decoder :=
  {| gunzip := fun b => match b with _ :: _ :: d => Some d | _ => None end;
     json_Unmarshal := unmarshal |}.

Definition accept_all (n : nat) : string + response := inr (Response 200 [] None).

Definition refuse_second (n : nat) : string + response :=
  if (n =? 1)%nat then inl "connection refused" else inr (Response 200 [] None).

Definition answer (code : Z) (n : nat) : string + response :=
  inr (Response code [x6f; x6b] None).

Definition w0 : world := World 0 [] 0 [] [] [].

Definition cfg0 : Config :=
  {| DisableCompression := false; MaxContentLength := 4 |}.

Definition two_events : list bool := [true; false].

(** Four records; with at most four bytes per chunk the producer cuts two
    chunks of two records each. *)
Definition four_records : list bytes :=
  [[x61; x62]; [x63; x64]; [x65; x66; x67]; [x68]].

Definition first_chunk : eventsBuf * list bytes :=
  (EventsBuf [x61; x62; x63; x64] 0%nat None, [[x61; x62]; [x63; x64]]).

Definition second_chunk : eventsBuf * list bytes :=
  (EventsBuf [x65; x66; x67; x68] 2%nat None, [[x65; x66; x67]; [x68]]).

Definition refused : error := errorString "connection refused".

(** A ready chunk with nothing in it. *)
Definition empty_chunk : eventsBuf := EventsBuf [] 0%nat None.

(** A marshaller that refuses [false]. *)
Definition picky : Converters :=
  {| metricDataToSplunk := fun _ (md : Metrics) => (md, 0);
     traceDataToSplunk := fun _ (td : Traces) => (td, 0);
     MetricAndDataPointCount := fun md => (1, len md);
     SpanCount := fun td => len td;
     json_Marshal := fun e : bool =>
       if e then inr json_true else inl "unsupported value" |}.

(** A chunk channel that delivers the given chunks. *)
Definition scripted (chunks : list eventsBuf) : LogData :=
  {| chunkEvents := fun _ _ => chunks;
     numLogs := fun ld from => len (drop from ld);
     subLogs := fun ld from => drop from ld |}.

(** A platform whose gzip writer fails every write. *)
Definition broken_gzip : Platform :=
  {| request_error := fun _ => None;
     round_trip := fun n _ => accept_all n;
     gzip := fun b => x1f :: x8b :: b;
     gzip_flushed := fun b => x1f :: x8b :: b;
     write_error := fun _ => Some "short write";
     close_error := fun _ => None |}.

(** A chunk above the compression threshold, one that carries an error,
    and a small ready one. *)
Definition big_chunk : eventsBuf := EventsBuf (repeat x61 1501) 1%nat None.


Definition failed_chunk : eventsBuf :=
  EventsBuf [] 1%nat (Some (permanent (errorString "cannot encode"))).

Definition small_chunk : eventsBuf := EventsBuf [x61; x62] 0%nat None.

(** A successful answer whose body fails at the read after its first
    byte. *)
Definition cut_short (n : nat) : string + response :=
  inr (Response 200 [x6f; x6b; x21] (Some 1%nat)).

(** A converter that keeps the events that are set and counts the others
    as dropped. *)
Definition dropping : Converters :=
  {| metricDataToSplunk := fun _ (md : Metrics) =>
       (List.filter (fun e : bool => e) md, len (List.filter negb md));
     traceDataToSplunk := fun _ (td : Traces) =>
       (List.filter (fun e : bool => e) td, len (List.filter negb td));
     MetricAndDataPointCount := fun md => (1, len md);
     SpanCount := fun td => len td;
     json_Marshal := marshal |}.


End Toy.

(** ** Growth of the world *)

(** The requests a trace hands to the HTTP client. *)
Definition requests_of (tr : list event) : list request :=
  flat_map (fun e => match e with EvDo r => [r] | _ => [] end) tr.

(** A response body read to its end and closed. *)
Definition drained : reader := Reader [] None true.

(** The body of a response once the transport is done with it: closed,
    and read to its end or, when a read fails, up to that read. *)
Definition after_transport (resp : response) : reader :=
  match ReadFault resp with
  | None => Reader [] None true
  | Some k => Reader (drop k (Body resp)) (Some 0%nat) true
  end.

(** The responses to the requests [reqs], handed over one after the other
    from the [n]-th round trip on; a round trip that fails gives none. *)
Fixpoint answers_from `{Platform} (n : nat) (reqs : list request)
  : list response :=
  match reqs with
  | [] => []
  | r :: reqs' =>
      match round_trip n r with
      | inr resp => resp :: answers_from (S n) reqs'
      | inl _ => answers_from (S n) reqs'
      end
  end.

(** From [w] to [w'] the trace grew by [tr], the wire by the requests of
    [tr], and the bodies by those of the responses to these requests, each
    as the transport leaves it. *)
Record extends `{Platform} (w w' : world) (tr : list event) : Prop := {
  ext_log : log w' = log w ++ tr;
  ext_wire : wire w' = wire w ++ requests_of tr;
  ext_bodies :
    bodies w' = bodies w
      ++ map after_transport (answers_from (List.length (wire w)) (requests_of tr))
}.

(** An effect that is not an HTTP call. *)
Definition local_event (e : event) : Prop :=
  match e with EvDo _ => False | _ => True end.

Definition is_wg (e : event) : bool :=
  match e with EvWgAdd | EvWgDone | EvWgWait => true | _ => false end.

Definition wg_free (tr : list event) : Prop :=
  forallb (fun e => negb (is_wg e)) tr = true.

(** One push: it registers first, unregisters last, leaves the counter as
    it found it, and in between uses the pool with discipline. *)
Definition push_frame `{Platform} (w w' : world) : Prop :=
  exists mid,
    extends w w' (EvWgAdd :: mid ++ [EvWgDone]) /\
    wg_free mid /\
    pool_run Nothing mid = Some Nothing /\
    wg w' = wg w.

(** What happens between the registration of a push and its release. *)
Definition inner_frame `{Platform} (w w' : world) : Prop :=
  exists mid,
    extends w w' mid /\
    wg_free mid /\
    pool_run Nothing mid = Some Nothing /\
    wg w' = wg w.

(** ** Compression and framing in the statements *)

(** Compression is asked for: it is not disabled and the body has more
    than 1500 bytes. *)
Definition wanted (disableCompression : bool) (n : Z) : bool :=
  negb disableCompression && (n >? 1500).

(** The request of a metrics or traces push for the encoded buffer [raw]. *)
Definition batch_request `{Platform} (disableCompression : bool) (raw : bytes)
  : request :=
  Request (if wanted disableCompression (len raw) then gzip raw else raw)
          (wanted disableCompression (len raw)).


(** One event on the wire: its JSON encoding, the newline the stream
    encoder writes after it, and the separator. *)
Definition framed (js : bytes) : bytes := js ++ [x0a] ++ CRLF2.

(** [jss] are the JSON encodings of [evs], in order. *)
Definition marshalled `{Converters} (evs : list Event) (jss : list bytes) : Prop :=
  Forall2 (fun e js => json_Marshal e = inr js) evs jss.

(** ** Vocabulary of the statements *)

Section Vocabulary.
Context `{PD : PData} {Conv : Converters} {LD : LogData} {Plat : Platform}.

(** The text of a status line: [msg] is HTTP, the decimal numeral of
    [code], and between double quotes the text the table of net/http has
    for [code], or nothing when the table has none. *)
Definition status_message (code : Z) (msg : string) : Prop :=
  exists digits text,
    msg = ("HTTP " ++ digits ++ " "
           ++ String dquote (text ++ String dquote ""))%string
    /\ NilZero.int_of_string digits = Some (Z.to_int code)
    /\ (In (code, text) statusText
        \/ (text = "" /\ forall t, ~ In (code, t) statusText)).

(** How a status code decides the error returned. *)
Definition verdict (r : option error) (code : Z) : Prop :=
  (r = None <-> 200 <= code < 300) /\
  (~ 200 <= code < 300 ->
   exists msg, r = Some (errorString msg) /\ status_message code msg).

(** The JSON encodings of the events, or the error of the first event
    that has none. *)
Fixpoint marshal_all (evs : list Event) : string + list bytes :=
  match evs with
  | [] => inr []
  | e :: evs' =>
      match json_Marshal e with
      | inl msg => inl msg
      | inr js =>
          match marshal_all evs' with
          | inl msg => inl msg
          | inr jss => inr (js :: jss)
          end
      end
  end.

(** The request a batch of events is encoded to, read off the marshaller
    and the gzip writer alone: the framed encodings, compressed as a whole
    when compression is wanted; or the error that stops the encoding. *)
Definition batch_encoding (evs : list Event) (disableCompression : bool)
  : string + request :=
  match marshal_all evs with
  | inl msg => inl msg
  | inr jss =>
      let raw := concat (map framed jss) in
      if wanted disableCompression (len raw) then
        match write_error raw with
        | Some msg => inl msg
        | None =>
            match close_error raw with
            | Some msg => inl msg
            | None => inr (Request (gzip raw) true)
            end
        end
      else inr (Request raw false)
  end.

(** What becomes of the one transmission of a metrics or traces batch. *)
Inductive fate :=
| NothingToSend                  (* conversion gave no event *)
| EncodingFailed (msg : string)  (* the body could not be encoded *)
| RequestFailed (msg : string)   (* the request could not be built *)
| NetworkFailed (msg : string)   (* the HTTP call failed *)
| StatusRejected (code : Z)      (* answered outside 2XX *)
| Delivered.

(** The fate of a batch sent from world [w], read off the surroundings. *)
Definition fate_of (evs : list Event) (disableCompression : bool) (w : world)
  : fate :=
  match evs with
  | [] => NothingToSend
  | _ :: _ =>
      match batch_encoding evs disableCompression with
      | inl msg => EncodingFailed msg
      | inr req =>
          match request_error (built w) with
          | Some msg => RequestFailed msg
          | None =>
              match round_trip (List.length (wire w)) req with
              | inl msg => NetworkFailed msg
              | inr resp =>
                  if (200 <=? StatusCode resp) && (StatusCode resp <? 300)
                  then Delivered
                  else StatusRejected (StatusCode resp)
              end
          end
      end
  end.

(** The result in the words of the specification: the full count with a
    permanent error when encoding or request construction fails, the full
    count with a non-permanent error when the network call or the status
    check fails, and the converter's own count without error otherwise. *)
Definition reports (total pre : Z) (f : fate) (r : Z * option error) : Prop :=
  match f with
  | EncodingFailed msg => r = (total, Some (permanent (errorString msg)))
  | RequestFailed msg => r = (total, Some (permanent (errorString msg)))
  | NetworkFailed msg => r = (total, Some (errorString msg))
  | StatusRejected code =>
      exists e, r = (total, Some e) /\ is_permanent e = false
  | NothingToSend | Delivered => r = (pre, None)
  end.

(** A request of the logs push comes from a ready, non-empty chunk. *)
Definition from_chunk (cfg : Config) (chunks : list eventsBuf) (r : request)
  : Prop :=
  exists c, In c chunks /\ err c = None /\ buf c <> [] /\ r = chunk_wire cfg c.

(** What the loop of [pushLogData] does to the world. *)
Definition loop_frame (cfg : Config) (chunks : list eventsBuf) (w w' : world)
  : Prop :=
  exists tr,
    extends w w' tr /\
    wg w' = wg w /\ zippers w' = zippers w /\
    wg_free tr /\
    pool_run Ready tr = Some Ready /\
    Forall (from_chunk cfg chunks) (requests_of tr).

End Vocabulary.

(** ** Vocabulary of the further statements *)

(** The world with more of the trace, and the world with another pool. *)
Definition logged (w : world) (tr : list event) : world :=
  World (wg w) (zippers w) (built w) (wire w) (bodies w) (log w ++ tr).

Definition with_pool (w : world) (idle : list gzip_Writer) : world :=
  World (wg w) idle (built w) (wire w) (bodies w) (log w).

(** Two worlds with the same HTTP side: as many requests built, the same
    requests handed over. *)
Definition same_http (w w' : world) : Prop :=
  built w = built w' /\ wire w = wire w'.

Section FurtherVocabulary.
Context `{PD : PData} {Conv : Converters} {LD : LogData} {Plat : Platform}.

(** The chunk passes the test of line 180. *)
Definition nonempty (c : eventsBuf) : bool := negb (len (buf c) =? 0).

(** The requests of a chunk sequence gone through to its end: one for
    every non-empty chunk, in order. *)
Definition deliveries (cfg : Config) (chunks : list eventsBuf) : list request :=
  map (chunk_wire cfg) (List.filter nonempty chunks).

(** The ways the loop of [pushLogData] returns an error at chunk [c]:
    the chunk's own error, the error of the gzip write wrapped as
    permanent, or the error of the transmission wrapped with the
    remainder. *)
Definition stopped_at (ld : Logs) (c : eventsBuf) (e : error) : Prop :=
  err c = Some e
  \/ (err c = None /\ exists msg,
        write_error (buf c) = Some msg /\ e = permanent (errorString msg))
  \/ (err c = None /\ exists e',
        e = partialLogs e' (subLogs ld (index c))).

(** A push accepted by the backend: the encoding of the batch went out as
    one request, which was answered inside 2XX. *)
Definition acknowledged (d : bool) (evs : list Event) (w w' : world) : Prop :=
  exists req resp,
    batch_encoding evs d = inr req
    /\ wire w' = wire w ++ [req]
    /\ round_trip (List.length (wire w)) req = inr resp
    /\ 200 <= StatusCode resp < 300.


(** The world after the one transmission of a batch. *)
Definition batch_world (evs : list Event) (d : bool) (w : world) : world :=
  match encodeBody evs d w with
  | ((_, _, Some _), w2) => w2
  | ((body, compressed, None), w2) => snd (postEvents body compressed w2)
  end.

End FurtherVocabulary.

(** * Facts about the embedding *)

Lemma alter_last {A} (f : A -> A) (l : list A) (x : A) :
  alter f (List.length l) (l ++ [x]) = l ++ [f x].
Proof.
  induction l as [|a l IH]; simpl; [reflexivity|].
  f_equal. exact IH.
Qed.

Lemma drop_length_app {A} (l k : list A) : drop (List.length l) (l ++ k) = k.
Proof. induction l; simpl; auto. Qed.

Lemma len_nil_iff {A} (l : list A) : (len l =? 0) = true <-> l = [].
Proof.
  unfold len. destruct l; simpl; split; intros Hl;
    try reflexivity; discriminate.
Qed.

Lemma len_cons_nonzero {A} (a : A) (l : list A) : (len (a :: l) =? 0) = false.
Proof. unfold len. apply Z.eqb_neq. simpl length. lia. Qed.

Section ClientFacts.
Context `{PD : PData} {Conv : Converters} {LD : LogData} {Plat : Platform}.

Lemma postEvents_eq (events : bytes) (compressed : bool) (w : world) :
  postEvents events compressed w =
  match request_error (built w) with
  | Some msg =>
      (Some (permanent (errorString msg)),
       World (wg w) (zippers w) (S (built w)) (wire w) (bodies w) (log w))
  | None =>
      let req := Request events compressed in
      match round_trip (List.length (wire w)) req with
      | inl msg =>
          (Some (errorString msg),
           World (wg w) (zippers w) (S (built w)) (wire w ++ [req])
                 (bodies w) (log w ++ [EvDo req]))
      | inr resp =>
          (if rejected (StatusCode resp)
           then Some (errorString (http_status_message (StatusCode resp)))
           else None,
           sent_world w req [after_transport resp])
      end
  end.
Proof.
  unfold postEvents, bind, http_NewRequest.
  destruct (request_error (built w)) as [msg|]; [reflexivity|].
  unfold client_Do; simpl.
  destruct (round_trip (List.length (wire w)) (Request events compressed))
    as [msg|resp]; [reflexivity|].
  unfold io_Copy_Discard, Body_Close, on_body, bind, sent_world; simpl.
  rewrite !alter_last; simpl.
  unfold after_transport.
  destruct (ReadFault resp); simpl;
    destruct (rejected (StatusCode resp)); reflexivity.
Qed.

Lemma getReader_eq (b : bytes) (disableCompression : bool) (w : world) :
  getReader b disableCompression w =
  if negb disableCompression && (len b >? 1500) then
    match write_error b with
    | Some msg =>
        ((b, false, Some (errorString msg)),
         zipped_world w (GzipWriter [] []) [EvGzWrite b])
    | None =>
        match close_error b with
        | Some msg =>
            ((b, false, Some (errorString msg)),
             zipped_world w (GzipWriter b []) [EvGzWrite b; EvGzClose])
        | None =>
            ((gzip b, true, None),
             zipped_world w (GzipWriter b (gzip b)) [EvGzWrite b; EvGzClose])
        end
    end
  else ((b, false, None), w).
Proof.
  unfold getReader.
  destruct (negb disableCompression && (len b >? 1500)); [|reflexivity].
  unfold bind, zippers_Get, gz_Reset, gz_Write, gz_Close, zippers_Put,
    zipped_world, emit, ret, bind.
  destruct (zippers w) as [|z idle]; simpl;
    destruct (write_error b); simpl;
    try (destruct (close_error b); simpl);
    rewrite <- ?app_assoc; reflexivity.
Qed.

End ClientFacts.

Lemma table_get_In (code : Z) (t : list (Z * string)) (v : string) :
  table_get code t = Some v -> In v (map snd t).
Proof.
  induction t as [|[k x] t IH]; simpl; [discriminate|].
  destruct (k =? code); intros Hv; [left; congruence | right; auto].
Qed.

Lemma quote_status_text (code : Z) :
  strconv_Quote (StatusText code)
  = String dquote (StatusText code ++ String dquote "").
Proof.
  assert (Hall : forallb
            (fun v => String.eqb (strconv_Quote v)
                                 (String dquote (v ++ String dquote "")))
            (map snd statusText) = true) by (vm_compute; reflexivity).
  unfold StatusText.
  destruct (table_get code statusText) as [v|] eqn:Hv; [|reflexivity].
  apply table_get_In in Hv.
  rewrite forallb_forall in Hall. apply Hall in Hv.
  apply String.eqb_eq in Hv. exact Hv.
Qed.

Lemma table_get_In_pair (code : Z) (t : list (Z * string)) :
  match table_get code t with
  | Some v => In (code, v) t
  | None => forall v, ~ In (code, v) t
  end.
Proof.
  induction t as [|[k x] t IH]; simpl; [tauto|].
  destruct (k =? code) eqn:Hk.
  - apply Z.eqb_eq in Hk. subst k. left. reflexivity.
  - apply Z.eqb_neq in Hk.
    destruct (table_get code t) as [v|].
    + right. exact IH.
    + intros v [Heq | Hin]; [inversion Heq; congruence | exact (IH v Hin)].
Qed.

Lemma itoa_numeral (code : Z) :
  NilZero.int_of_string (itoa code) = Some (Z.to_int code).
Proof.
  unfold itoa. apply NilZero.isi; destruct code; simpl; try discriminate;
    intros H; injection H as H; exact (Unsigned.to_uint_nonnil _ H).
Qed.

Lemma http_status_message_spelled (code : Z) :
  status_message code (http_status_message code).
Proof.
  exists (itoa code), (StatusText code).
  split; [|split].
  - unfold http_status_message. rewrite quote_status_text. reflexivity.
  - apply itoa_numeral.
  - unfold StatusText. pose proof (table_get_In_pair code statusText) as H.
    destruct (table_get code statusText); [left; exact H | right; auto].
Qed.

Lemma rejected_false_iff (code : Z) : rejected code = false <-> 200 <= code < 300.
Proof. unfold rejected, StatusOK, StatusMultipleChoices. lia. Qed.

Lemma rejected_true_iff (code : Z) : rejected code = true <-> ~ 200 <= code < 300.
Proof. unfold rejected, StatusOK, StatusMultipleChoices. lia. Qed.

Section Transport.
Context `{PD : PData} {Conv : Converters} {LD : LogData} {Plat : Platform}.

Lemma verdict_of_code (code : Z) :
  verdict (if rejected code
           then Some (errorString (http_status_message code)) else None) code.
Proof.
  unfold verdict. pose proof (http_status_message_spelled code) as Hmsg.
  destruct (rejected code) eqn:Hr.
  - apply rejected_true_iff in Hr.
    split; [split; [discriminate | tauto] | eauto].
  - apply rejected_false_iff in Hr. split; [split; auto | tauto].
Qed.

Lemma rejected_outside (code : Z) :
  rejected code = negb ((200 <=? code) && (code <? 300)).
Proof. unfold rejected, StatusOK, StatusMultipleChoices. lia. Qed.

Lemma encode_events_marshal_all (evs : list Event) :
  forall buf,
    encode_events evs buf =
    match marshal_all evs with
    | inl msg => inl msg
    | inr jss => inr (buf ++ concat (map framed jss))
    end.
Proof.
  induction evs as [|e evs IH]; intros buf; simpl.
  - rewrite app_nil_r. reflexivity.
  - unfold Encoder_Encode. destruct (json_Marshal e) as [msg|js]; [reflexivity|].
    rewrite IH. destruct (marshal_all evs) as [msg|jss]; [reflexivity|].
    simpl. unfold framed. rewrite <- !app_assoc. reflexivity.
Qed.

(** [encodeBody] computes the encoding of the batch. *)
Lemma encodeBody_encoding (evs : list Event) (d : bool) (w : world) :
  match batch_encoding evs d with
  | inl msg => snd (fst (encodeBody evs d w)) = Some (errorString msg)
  | inr req => fst (encodeBody evs d w) = (req_body req, req_gzip req, None)
  end.
Proof.
  unfold batch_encoding, encodeBody.
  rewrite encode_events_marshal_all.
  destruct (marshal_all evs) as [msg|jss]; [reflexivity|].
  cbv zeta. rewrite app_nil_l, getReader_eq.
  fold (wanted d (len (concat (map framed jss)))).
  destruct (wanted d (len (concat (map framed jss)))); [|reflexivity].
  destruct (write_error (concat (map framed jss))); [reflexivity|].
  destruct (close_error (concat (map framed jss))); reflexivity.
Qed.

(** What [getReader] returns does not depend on the world. *)
Lemma getReader_value (b : bytes) (d : bool) (w1 w2 : world) :
  fst (getReader b d w1) = fst (getReader b d w2).
Proof.
  rewrite !getReader_eq.
  destruct (negb d && (len b >? 1500)); [|reflexivity].
  destruct (write_error b); [reflexivity|].
  destruct (close_error b); reflexivity.
Qed.

Lemma encodeBody_value (dps : list Event) (d : bool) (w1 w2 : world) :
  fst (encodeBody dps d w1) = fst (encodeBody dps d w2).
Proof.
  unfold encodeBody. destruct (encode_events dps []); [reflexivity|].
  apply getReader_value.
Qed.

Lemma encodeBodyEvents_value (evs : list Event) (d : bool) (w1 w2 : world) :
  fst (encodeBodyEvents evs d w1) = fst (encodeBodyEvents evs d w2).
Proof.
  unfold encodeBodyEvents. destruct (encode_events evs []); [reflexivity|].
  apply getReader_value.
Qed.

(** [getReader] leaves the HTTP side of the world alone. *)
Lemma getReader_http (b : bytes) (d : bool) (w : world) :
  let w' := snd (getReader b d w) in
  wg w' = wg w /\ built w' = built w /\ wire w' = wire w /\ bodies w' = bodies w.
Proof.
  rewrite getReader_eq.
  destruct (negb d && (len b >? 1500)); [|simpl; auto].
  destruct (write_error b); [simpl; auto|].
  destruct (close_error b); simpl; auto.
Qed.

Lemma encodeBody_http (dps : list Event) (d : bool) (w : world) :
  let w' := snd (encodeBody dps d w) in
  wg w' = wg w /\ built w' = built w /\ wire w' = wire w /\ bodies w' = bodies w.
Proof.
  unfold encodeBody. destruct (encode_events dps []); [simpl; auto|].
  apply getReader_http.
Qed.

Lemma encodeBodyEvents_http (evs : list Event) (d : bool) (w : world) :
  let w' := snd (encodeBodyEvents evs d w) in
  wg w' = wg w /\ built w' = built w /\ wire w' = wire w /\ bodies w' = bodies w.
Proof.
  unfold encodeBodyEvents. destruct (encode_events evs []); [simpl; auto|].
  apply getReader_http.
Qed.

End Transport.

Section Pushes.
Context `{PD : PData} {Conv : Converters} {LD : LogData} {Plat : Platform}.

Lemma pushMetricsData_result (cfg : Config) (md : Metrics) (w : world) :
  fst (pushMetricsData cfg md w) =
  let '(dps, pre) := metricDataToSplunk cfg md in
  match dps with
  | [] => (pre, None)
  | _ :: _ =>
      match fst (encodeBody dps (DisableCompression cfg) w) with
      | (_, _, Some e) => (numMetricPoint md, Some (permanent e))
      | (body, compressed, None) =>
          match request_error (built w) with
          | Some msg => (numMetricPoint md, Some (permanent (errorString msg)))
          | None =>
              match round_trip (List.length (wire w)) (Request body compressed) with
              | inl msg => (numMetricPoint md, Some (errorString msg))
              | inr resp =>
                  if rejected (StatusCode resp)
                  then (numMetricPoint md,
                        Some (errorString (http_status_message (StatusCode resp))))
                  else (pre, None)
              end
          end
      end
  end.
Proof.
  unfold pushMetricsData, bind.
  destruct (wg_Add 1 w) as [[] w1] eqn:Hadd.
  assert (Hw1 : built w1 = built w /\ wire w1 = wire w)
    by (unfold wg_Add, emit in Hadd; inversion Hadd; simpl; auto).
  destruct (metricDataToSplunk cfg md) as [dps pre].
  destruct dps as [|dp dps]; [reflexivity|].
  rewrite len_cons_nonzero.
  rewrite (encodeBody_value _ _ w w1).
  pose proof (encodeBody_http (dp :: dps) (DisableCompression cfg) w1) as Hh.
  destruct (encodeBody (dp :: dps) (DisableCompression cfg) w1)
    as [[[body compressed] [e|]] w2]; simpl in Hh |- *; [reflexivity|].
  destruct Hh as (_ & Hb & Hwire & _). destruct Hw1 as [Hb1 Hwire1].
  unfold http_NewRequest. rewrite Hb, Hb1.
  destruct (request_error (built w)); [reflexivity|].
  unfold client_Do; simpl. rewrite Hwire, Hwire1.
  destruct (round_trip (List.length (wire w)) (Request body compressed));
    [reflexivity|].
  unfold io_Copy_Discard, Body_Close, on_body, bind; simpl.
  destruct (rejected (StatusCode r)); reflexivity.
Qed.

Lemma sendSplunkEvents_result (cfg : Config) (evs : list Event) (w : world) :
  fst (sendSplunkEvents cfg evs w) =
  match fst (encodeBodyEvents evs (DisableCompression cfg) w) with
  | (_, _, Some e) => Some (permanent e)
  | (body, compressed, None) =>
      match request_error (built w) with
      | Some msg => Some (permanent (errorString msg))
      | None =>
          match round_trip (List.length (wire w)) (Request body compressed) with
          | inl msg => Some (errorString msg)
          | inr resp =>
              if rejected (StatusCode resp)
              then Some (errorString (http_status_message (StatusCode resp)))
              else None
          end
      end
  end.
Proof.
  unfold sendSplunkEvents, bind.
  pose proof (encodeBodyEvents_http evs (DisableCompression cfg) w) as Hh.
  destruct (encodeBodyEvents evs (DisableCompression cfg) w)
    as [[[body compressed] [e|]] w2]; simpl in Hh |- *; [reflexivity|].
  destruct Hh as (_ & Hb & Hwire & _).
  rewrite postEvents_eq, Hb, Hwire.
  destruct (request_error (built w)); [reflexivity|].
  simpl.
  destruct (round_trip (List.length (wire w)) (Request body compressed));
    reflexivity.
Qed.

Lemma pushTraceData_result (cfg : Config) (td : Traces) (w : world) :
  fst (pushTraceData cfg td w) =
  let '(evs, pre) := traceDataToSplunk cfg td in
  match evs with
  | [] => (pre, None)
  | _ :: _ =>
      match fst (encodeBodyEvents evs (DisableCompression cfg) w) with
      | (_, _, Some e) => (SpanCount td, Some (permanent e))
      | (body, compressed, None) =>
          match request_error (built w) with
          | Some msg => (SpanCount td, Some (permanent (errorString msg)))
          | None =>
              match round_trip (List.length (wire w)) (Request body compressed) with
              | inl msg => (SpanCount td, Some (errorString msg))
              | inr resp =>
                  if rejected (StatusCode resp)
                  then (SpanCount td,
                        Some (errorString (http_status_message (StatusCode resp))))
                  else (pre, None)
              end
          end
      end
  end.
Proof.
  unfold pushTraceData, bind.
  destruct (wg_Add 1 w) as [[] w1] eqn:Hadd.
  assert (Hw1 : built w1 = built w /\ wire w1 = wire w)
    by (unfold wg_Add, emit in Hadd; inversion Hadd; simpl; auto).
  destruct Hw1 as [Hb1 Hwire1].
  destruct (traceDataToSplunk cfg td) as [evs pre].
  destruct evs as [|ev evs]; [reflexivity|].
  rewrite len_cons_nonzero.
  pose proof (sendSplunkEvents_result cfg (ev :: evs) w1) as Hs.
  rewrite (encodeBodyEvents_value _ _ w1 w), Hb1, Hwire1 in Hs.
  destruct (sendSplunkEvents cfg (ev :: evs) w1) as [r w2].
  simpl in Hs. subst r.
  destruct (fst (encodeBodyEvents (ev :: evs) (DisableCompression cfg) w))
    as [[body compressed] [e|]]; [reflexivity|].
  destruct (request_error (built w)); [reflexivity|].
  destruct (round_trip (List.length (wire w)) (Request body compressed));
    [reflexivity|].
  destruct (rejected (StatusCode r)); reflexivity.
Qed.

End Pushes.

(** * The claims on metrics and traces *)

Section MetricsAndTraces.
Context `{PD : PData} {Conv : Converters} {LD : LogData} {Plat : Platform}.

Lemma batch_result (total pre : Z) (evs : list Event) (d : bool) (w : world) :
  reports total pre (fate_of evs d w)
    (match evs with
     | [] => (pre, None)
     | _ :: _ =>
         match fst (encodeBody evs d w) with
         | (_, _, Some e) => (total, Some (permanent e))
         | (body, compressed, None) =>
             match request_error (built w) with
             | Some msg => (total, Some (permanent (errorString msg)))
             | None =>
                 match round_trip (List.length (wire w))
                         (Request body compressed) with
                 | inl msg => (total, Some (errorString msg))
                 | inr resp =>
                     if rejected (StatusCode resp)
                     then (total,
                           Some (errorString
                                   (http_status_message (StatusCode resp))))
                     else (pre, None)
                 end
             end
         end
     end).
Proof.
  unfold fate_of. destruct evs as [|ev evs]; [reflexivity|].
  pose proof (encodeBody_encoding (ev :: evs) d w) as Henc.
  destruct (batch_encoding (ev :: evs) d) as [msg|[body c]].
  - destruct (fst (encodeBody (ev :: evs) d w)) as [[body c] e].
    simpl in Henc. subst e. reflexivity.
  - simpl in Henc. rewrite Henc.
    destruct (request_error (built w)); [reflexivity|].
    destruct (round_trip (List.length (wire w)) (Request body c))
      as [msg|resp]; [reflexivity|].
    rewrite rejected_outside.
    destruct ((200 <=? StatusCode resp) && (StatusCode resp <? 300)); simpl;
      [reflexivity | eauto].
Qed.

(** C4: a metrics or traces push returns the full record count (all data
    points, all spans) with a permanent error when body encoding or
    request construction fails, the full count with a non-permanent error
    when the network call fails or the status is outside [200,300), and
    the converter's pre-dropped count with no error on success. *)
Theorem push_result_classification (cfg : Config) (md : Metrics) (td : Traces)
    (w : world) :
  reports (snd (MetricAndDataPointCount md)) (snd (metricDataToSplunk cfg md))
    (fate_of (fst (metricDataToSplunk cfg md)) (DisableCompression cfg) w)
    (fst (pushMetricsData cfg md w))
  /\ reports (SpanCount td) (snd (traceDataToSplunk cfg td))
       (fate_of (fst (traceDataToSplunk cfg td)) (DisableCompression cfg) w)
       (fst (pushTraceData cfg td w)).
Proof.
  split.
  - rewrite pushMetricsData_result.
    pose proof (batch_result (snd (MetricAndDataPointCount md))
                  (snd (metricDataToSplunk cfg md))
                  (fst (metricDataToSplunk cfg md))
                  (DisableCompression cfg) w) as H.
    unfold numMetricPoint.
    destruct (MetricAndDataPointCount md) as [nm np].
    destruct (metricDataToSplunk cfg md) as [dps pre]. exact H.
  - rewrite pushTraceData_result.
    pose proof (batch_result (SpanCount td)
                  (snd (traceDataToSplunk cfg td))
                  (fst (traceDataToSplunk cfg td))
                  (DisableCompression cfg) w) as H.
    destruct (traceDataToSplunk cfg td) as [evs pre]. exact H.
Qed.

Lemma postEvents_verdict (events : bytes) (compressed : bool) (w : world)
    (resp : response) :
  request_error (built w) = None ->
  round_trip (List.length (wire w)) (Request events compressed) = inr resp ->
  verdict (fst (postEvents events compressed w)) (StatusCode resp).
Proof.
  intros Hreq Hrt. rewrite postEvents_eq, Hreq. cbv zeta. rewrite Hrt.
  apply verdict_of_code.
Qed.

Lemma pushMetricsData_verdict (cfg : Config) (md : Metrics) (w : world)
    (req : request) (resp : response) :
  fst (metricDataToSplunk cfg md) <> [] ->
  batch_encoding (fst (metricDataToSplunk cfg md)) (DisableCompression cfg)
  = inr req ->
  request_error (built w) = None ->
  round_trip (List.length (wire w)) req = inr resp ->
  verdict (snd (fst (pushMetricsData cfg md w))) (StatusCode resp).
Proof.
  intros Hne Henc Hreq Hrt. rewrite pushMetricsData_result.
  destruct (metricDataToSplunk cfg md) as [[|dp dps] pre]; [contradiction|].
  cbn [fst] in Henc.
  pose proof (encodeBody_encoding (dp :: dps) (DisableCompression cfg) w) as He.
  rewrite Henc in He. rewrite He, Hreq.
  destruct req as [body c]. cbn [req_body req_gzip]. rewrite Hrt.
  pose proof (verdict_of_code (StatusCode resp)) as Hv.
  destruct (rejected (StatusCode resp)); exact Hv.
Qed.

(** C5: a response is a success exactly when its status code lies in
    [200,300); any other code gives the error whose message is HTTP, the
    code in decimal, and the status text between double quotes.  This
    holds in [postEvents] and in the inlined copy of [pushMetricsData]. *)
Theorem status_classification :
  (forall (events : bytes) (compressed : bool) (w : world) (resp : response),
     request_error (built w) = None ->
     round_trip (List.length (wire w)) (Request events compressed) = inr resp ->
     verdict (fst (postEvents events compressed w)) (StatusCode resp))
  /\ (forall (cfg : Config) (md : Metrics) (w : world) (req : request)
             (resp : response),
        fst (metricDataToSplunk cfg md) <> [] ->
        batch_encoding (fst (metricDataToSplunk cfg md)) (DisableCompression cfg)
        = inr req ->
        request_error (built w) = None ->
        round_trip (List.length (wire w)) req = inr resp ->
        verdict (snd (fst (pushMetricsData cfg md w))) (StatusCode resp)).
Proof.
  split.
  - apply postEvents_verdict.
  - apply pushMetricsData_verdict.
Qed.

(** C10: when conversion yields no event, a metrics push, and likewise a
    traces push, returns the converter's pre-dropped count with a nil error
    and does nothing else: no request is built or sent, the pool is
    untouched, and the trace holds only the registration with the wait
    group and its release. *)
Theorem no_events_no_request (cfg : Config) (w : world) :
  (forall (md : Metrics) (pm : Z),
     metricDataToSplunk cfg md = ([], pm) ->
     fst (pushMetricsData cfg md w) = (pm, None)
     /\ only_registered w (snd (pushMetricsData cfg md w)))
  /\ (forall (td : Traces) (pt : Z),
        traceDataToSplunk cfg td = ([], pt) ->
        fst (pushTraceData cfg td w) = (pt, None)
        /\ only_registered w (snd (pushTraceData cfg td w))).
Proof.
  unfold only_registered. split.
  - intros md pm Hm.
    unfold pushMetricsData, bind, wg_Add, wg_Done, emit, ret.
    rewrite Hm. simpl. rewrite <- app_assoc. simpl.
    repeat split; try reflexivity. lia.
  - intros td pt Ht.
    unfold pushTraceData, bind, wg_Add, wg_Done, emit, ret.
    rewrite Ht. simpl. rewrite <- app_assoc. simpl.
    repeat split; try reflexivity. lia.
Qed.

End MetricsAndTraces.

(** * Frames: how each operation extends the world *)

Lemma requests_of_app (t1 t2 : list event) :
  requests_of (t1 ++ t2) = requests_of t1 ++ requests_of t2.
Proof. unfold requests_of. apply flat_map_app. Qed.

Lemma pool_run_app (st : holding) (t1 t2 : list event) :
  pool_run st (t1 ++ t2) =
  match pool_run st t1 with
  | Some st' => pool_run st' t2
  | None => None
  end.
Proof.
  revert st. induction t1 as [|e t1 IH]; intros st; simpl; [reflexivity|].
  destruct (pool_step st e); [apply IH | reflexivity].
Qed.

Lemma wg_free_app (t1 t2 : list event) :
  wg_free t1 -> wg_free t2 -> wg_free (t1 ++ t2).
Proof.
  unfold wg_free. intros H1 H2. rewrite forallb_app, H1, H2. reflexivity.
Qed.

Section Extends.
Context {Plat : Platform}.

Lemma answers_from_app (reqs1 reqs2 : list request) :
  forall n,
    answers_from n (reqs1 ++ reqs2)
    = answers_from n reqs1 ++ answers_from (n + List.length reqs1) reqs2.
Proof.
  induction reqs1 as [|r reqs1 IH]; intros n; simpl.
  - rewrite Nat.add_0_r. reflexivity.
  - rewrite IH. replace (S n + List.length reqs1)%nat
      with (n + S (List.length reqs1))%nat by lia.
    destruct (round_trip n r); reflexivity.
Qed.

Lemma extends_refl (w : world) : extends w w [].
Proof. constructor; simpl; rewrite app_nil_r; reflexivity. Qed.

Lemma extends_trans (w w1 w2 : world) (t1 t2 : list event) :
  extends w w1 t1 -> extends w1 w2 t2 -> extends w w2 (t1 ++ t2).
Proof.
  intros [L1 W1 B1] [L2 W2 B2]. constructor.
  - rewrite L2, L1, app_assoc. reflexivity.
  - rewrite W2, W1, requests_of_app, app_assoc. reflexivity.
  - rewrite B2, B1, requests_of_app, answers_from_app, map_app, <- app_assoc.
    rewrite W1, length_app. reflexivity.
Qed.

Lemma extends_trace {A} (m : M A) (w : world) (tr : list event) :
  extends w (snd (m w)) tr -> trace m w = tr.
Proof.
  intros [L _ _]. unfold trace. rewrite L. apply drop_length_app.
Qed.

Lemma extends_emit (e : event) (w : world) :
  local_event e -> extends w (snd (emit e w)) [e].
Proof.
  intros He. constructor; simpl; try reflexivity;
    destruct e; simpl in *; try contradiction; rewrite app_nil_r; reflexivity.
Qed.

End Extends.

Section Frames.
Context `{PD : PData} {Conv : Converters} {LD : LogData} {Plat : Platform}.

Lemma postEvents_frame (b : bytes) (c : bool) (w : world) :
  let w' := snd (postEvents b c w) in
  exists tr,
    extends w w' tr /\ wg w' = wg w /\ zippers w' = zippers w /\
    (tr = [] \/ tr = [EvDo (Request b c)]).
Proof.
  rewrite postEvents_eq.
  destruct (request_error (built w)); simpl.
  - exists []. split; [|auto].
    constructor; simpl; rewrite app_nil_r; reflexivity.
  - destruct (round_trip (List.length (wire w)) (Request b c)) eqn:Hrt; simpl.
    + exists [EvDo (Request b c)]. split; [|auto].
      constructor; simpl; try reflexivity.
      rewrite Hrt. simpl. rewrite app_nil_r; reflexivity.
    + exists [EvDo (Request b c)]. split; [|auto].
      constructor; simpl; try reflexivity. rewrite Hrt. reflexivity.
Qed.

Lemma getReader_frame (b : bytes) (d : bool) (w : world) :
  let w' := snd (getReader b d w) in
  exists tr,
    extends w w' tr /\ wg w' = wg w /\ wg_free tr /\
    pool_run Nothing tr = Some Nothing /\ requests_of tr = [].
Proof.
  rewrite getReader_eq.
  destruct (negb d && (len b >? 1500)).
  - destruct (write_error b); [|destruct (close_error b)]; simpl;
      eexists; (split; [constructor; simpl; try reflexivity|]);
      try (rewrite app_nil_r; reflexivity); repeat split; reflexivity.
  - exists []. simpl. split; [apply extends_refl | repeat split; reflexivity].
Qed.

Lemma encodeBody_frame (dps : list Event) (d : bool) (w : world) :
  let w' := snd (encodeBody dps d w) in
  exists tr,
    extends w w' tr /\ wg w' = wg w /\ wg_free tr /\
    pool_run Nothing tr = Some Nothing /\ requests_of tr = [].
Proof.
  unfold encodeBody. destruct (encode_events dps []).
  - exists []. simpl. split; [apply extends_refl | repeat split; reflexivity].
  - apply getReader_frame.
Qed.

End Frames.

Section LoopFrame.
Context `{PD : PData} {Conv : Converters} {LD : LogData} {Plat : Platform}.
Variable cfg : Config.

Lemma loop_frame_refl (chunks : list eventsBuf) (w : world) :
  loop_frame cfg chunks w w.
Proof.
  exists []. split; [apply extends_refl|].
  repeat split; try reflexivity. constructor.
Qed.

Lemma loop_frame_trans (chunks : list eventsBuf) (w w1 w2 : world) :
  loop_frame cfg chunks w w1 -> loop_frame cfg chunks w1 w2 ->
  loop_frame cfg chunks w w2.
Proof.
  intros (t1 & E1 & G1 & Z1 & F1 & P1 & R1)
         (t2 & E2 & G2 & Z2 & F2 & P2 & R2).
  exists (t1 ++ t2).
  split; [eapply extends_trans; eassumption|].
  split; [congruence|]. split; [congruence|].
  split; [apply wg_free_app; assumption|].
  split; [rewrite pool_run_app, P1; exact P2|].
  rewrite requests_of_app. apply Forall_app; auto.
Qed.

Lemma loop_frame_cons (c : eventsBuf) (rest : list eventsBuf) (w w' : world) :
  loop_frame cfg rest w w' -> loop_frame cfg (c :: rest) w w'.
Proof.
  intros (tr & E & G & Z & F & P & R).
  exists tr. repeat (split; [assumption|]).
  eapply Forall_impl; [exact R|].
  intros r (c' & Hin & He & Hb & Hr). exists c'.
  split; [right; exact Hin | auto].
Qed.

Lemma loop_frame_emit (chunks : list eventsBuf) (e : event) (w : world) :
  pool_step Ready e = Some Ready -> is_wg e = false -> local_event e ->
  loop_frame cfg chunks w (snd (emit e w)).
Proof.
  intros Hp Hw Hl. exists [e].
  split; [apply extends_emit; exact Hl|].
  split; [reflexivity|]. split; [reflexivity|].
  split; [unfold wg_free; simpl; rewrite Hw; reflexivity|].
  split; [simpl; rewrite Hp; reflexivity|].
  destruct e; simpl in *; try contradiction; constructor.
Qed.

Lemma loop_frame_post (chunks : list eventsBuf) (c : eventsBuf) (w : world) :
  In c chunks -> err c = None -> buf c <> [] ->
  loop_frame cfg chunks w
    (snd (postEvents (req_body (chunk_wire cfg c)) (req_gzip (chunk_wire cfg c)) w)).
Proof.
  intros Hin He Hb.
  destruct (postEvents_frame (req_body (chunk_wire cfg c))
              (req_gzip (chunk_wire cfg c)) w)
    as (tr & E & G & Z & Htr).
  exists tr. repeat (split; [assumption|]).
  destruct Htr as [-> | ->]; simpl.
  - repeat split; constructor.
  - repeat split; try reflexivity.
    constructor; [|constructor].
    exists c. repeat (split; [assumption|]).
    destruct (chunk_wire cfg c); reflexivity.
Qed.

Lemma chunk_wire_raw (c : eventsBuf) :
  (len (buf c) <=? 1500) || DisableCompression cfg = true ->
  chunk_wire cfg c = Request (buf c) false.
Proof. intros H. unfold chunk_wire. rewrite H. reflexivity. Qed.

Lemma chunk_wire_gzip (c : eventsBuf) :
  (len (buf c) <=? 1500) || DisableCompression cfg = false ->
  chunk_wire cfg c = Request (gzip_flushed (buf c)) true.
Proof. intros H. unfold chunk_wire. rewrite H. reflexivity. Qed.

Lemma range_chunks_frame (ld : Logs) (chunks : list eventsBuf) :
  forall (z : gzip_Writer) (w : world),
    gz_in z = [] ->
    loop_frame cfg chunks w (snd (range_chunks cfg ld chunks z w)).
Proof.
  induction chunks as [|c rest IH]; intros z w Hz; simpl.
  - apply loop_frame_refl.
  - destruct (err c) eqn:He; [apply loop_frame_refl|].
    destruct (len (buf c) =? 0) eqn:Hlen;
      [apply loop_frame_cons, IH; exact Hz|].
    assert (Hb : buf c <> [])
      by (intros Hnil; apply len_nil_iff in Hnil; congruence).
    destruct ((len (buf c) <=? 1500) || DisableCompression cfg) eqn:Hdec.
    + unfold bind.
      pose proof (loop_frame_post (c :: rest) c w (or_introl eq_refl) He Hb)
        as Hpost.
      rewrite (chunk_wire_raw c Hdec) in Hpost. simpl in Hpost.
      destruct (postEvents (buf c) false w) as [[e|] w1]; simpl in *;
        [exact Hpost|].
      eapply loop_frame_trans; [exact Hpost|].
      apply loop_frame_cons, IH; exact Hz.
    + unfold bind, gz_Write, gz_Flush, gz_Reset, bind, ret.
      assert (Hw1 : loop_frame cfg (c :: rest) w
                      (snd (emit (EvGzWrite (buf c)) w)))
        by (apply loop_frame_emit; [reflexivity | reflexivity | exact I]).
      destruct (emit (EvGzWrite (buf c)) w) as [[] w1].
      cbv beta iota in Hw1 |- *. unfold snd in Hw1.
      destruct (write_error (buf c)); cbv beta iota; [exact Hw1|].
      assert (Hw2 : loop_frame cfg (c :: rest) w1 (snd (emit EvGzFlush w1)))
        by (apply loop_frame_emit; [reflexivity | reflexivity | exact I]).
      destruct (emit EvGzFlush w1) as [[] w2].
      cbv beta iota in Hw2 |- *. unfold snd in Hw2.
      unfold gz_in at 1 2 3, gz_out. rewrite Hz. rewrite app_nil_l.
      pose proof (loop_frame_post (c :: rest) c w2 (or_introl eq_refl) He Hb)
        as Hpost.
      rewrite (chunk_wire_gzip c Hdec) in Hpost.
      unfold req_body, req_gzip in Hpost.
      destruct (postEvents (gzip_flushed (buf c)) true w2) as [[e|] w3];
        cbv beta iota in Hpost |- *; unfold snd in Hpost.
      * unfold snd.
        eapply loop_frame_trans; [exact Hw1|].
        eapply loop_frame_trans; [exact Hw2 | exact Hpost].
      * assert (Hw4 : loop_frame cfg (c :: rest) w3 (snd (emit EvGzReset w3)))
          by (apply loop_frame_emit; [reflexivity | reflexivity | exact I]).
        destruct (emit EvGzReset w3) as [[] w4].
        cbv beta iota in Hw4 |- *. unfold snd in Hw4.
        eapply loop_frame_trans; [exact Hw1|].
        eapply loop_frame_trans; [exact Hw2|].
        eapply loop_frame_trans; [exact Hpost|].
        eapply loop_frame_trans; [exact Hw4|].
        apply loop_frame_cons, IH. reflexivity.
Qed.

End LoopFrame.

Section PushFrames.
Context `{PD : PData} {Conv : Converters} {LD : LogData} {Plat : Platform}.

Lemma inner_frame_refl (w : world) : inner_frame w w.
Proof.
  exists []. split; [apply extends_refl | repeat split; reflexivity].
Qed.

Lemma inner_frame_trans (w w1 w2 : world) :
  inner_frame w w1 -> inner_frame w1 w2 -> inner_frame w w2.
Proof.
  intros (t1 & E1 & F1 & P1 & G1) (t2 & E2 & F2 & P2 & G2).
  exists (t1 ++ t2).
  split; [eapply extends_trans; eassumption|].
  split; [apply wg_free_app; assumption|].
  split; [rewrite pool_run_app, P1; exact P2 | congruence].
Qed.

Lemma postEvents_inner (b : bytes) (c : bool) (w : world) :
  inner_frame w (snd (postEvents b c w)).
Proof.
  destruct (postEvents_frame b c w) as (tr & E & G & _ & Htr).
  exists tr. split; [exact E|].
  destruct Htr as [-> | ->]; repeat split; try reflexivity; exact G.
Qed.

Lemma encodeBody_inner (dps : list Event) (d : bool) (w : world) :
  inner_frame w (snd (encodeBody dps d w)).
Proof.
  destruct (encodeBody_frame dps d w) as (tr & E & G & F & P & _).
  exists tr. auto.
Qed.

(** The world a metrics push leaves: the inlined HTTP code acts on the
    world as [postEvents] does. *)
Lemma pushMetricsData_world (cfg : Config) (md : Metrics) (w : world) :
  snd (pushMetricsData cfg md w) =
  snd (wg_Done
    (match fst (metricDataToSplunk cfg md) with
     | [] => snd (wg_Add 1 w)
     | dps =>
         match encodeBody dps (DisableCompression cfg) (snd (wg_Add 1 w)) with
         | ((_, _, Some _), w2) => w2
         | ((body, compressed, None), w2) => snd (postEvents body compressed w2)
         end
     end)).
Proof.
  unfold pushMetricsData, bind.
  destruct (wg_Add 1 w) as [[] w1]. simpl snd.
  destruct (metricDataToSplunk cfg md) as [dps pre]. simpl fst.
  destruct dps as [|dp dps]; [reflexivity|].
  rewrite len_cons_nonzero.
  destruct (encodeBody (dp :: dps) (DisableCompression cfg) w1)
    as [[[body compressed] [e|]] w2]; [reflexivity|].
  rewrite postEvents_eq.
  unfold http_NewRequest.
  destruct (request_error (built w2)); [reflexivity|].
  unfold client_Do. cbv zeta. simpl wire. simpl bodies.
  destruct (round_trip (List.length (wire w2)) (Request body compressed));
    [reflexivity|].
  unfold io_Copy_Discard, Body_Close, on_body, bind, sent_world; simpl.
  rewrite !alter_last; simpl.
  unfold after_transport.
  destruct (ReadFault r); simpl;
    destruct (rejected (StatusCode r)); reflexivity.
Qed.

Lemma pushTraceData_world (cfg : Config) (td : Traces) (w : world) :
  snd (pushTraceData cfg td w) =
  snd (wg_Done
    (match fst (traceDataToSplunk cfg td) with
     | [] => snd (wg_Add 1 w)
     | evs =>
         match encodeBodyEvents evs (DisableCompression cfg) (snd (wg_Add 1 w)) with
         | ((_, _, Some _), w2) => w2
         | ((body, compressed, None), w2) => snd (postEvents body compressed w2)
         end
     end)).
Proof.
  unfold pushTraceData, bind.
  destruct (wg_Add 1 w) as [[] w1]. simpl snd.
  destruct (traceDataToSplunk cfg td) as [evs pre]. simpl fst.
  destruct evs as [|ev evs]; [reflexivity|].
  rewrite len_cons_nonzero.
  unfold sendSplunkEvents, bind.
  destruct (encodeBodyEvents (ev :: evs) (DisableCompression cfg) w1)
    as [[[body compressed] [e|]] w2]; [reflexivity|].
  destruct (postEvents body compressed w2) as [[e|] w3]; reflexivity.
Qed.

(** Registration around an inner computation makes a push. *)
Lemma push_frame_wrap (w wi : world) :
  inner_frame (snd (wg_Add 1 w)) wi ->
  push_frame w (snd (wg_Done wi)).
Proof.
  intros (mid & [L W B] & F & P & G).
  exists mid. split; [constructor|]; simpl in *.
  - rewrite L, <- !app_assoc. reflexivity.
  - rewrite W, requests_of_app. simpl. rewrite app_nil_r. reflexivity.
  - rewrite B, requests_of_app. simpl. rewrite app_nil_r. reflexivity.
  - repeat split; try assumption. rewrite G. lia.
Qed.

Lemma pushMetricsData_frame (cfg : Config) (md : Metrics) (w : world) :
  push_frame w (snd (pushMetricsData cfg md w)).
Proof.
  rewrite pushMetricsData_world. apply push_frame_wrap.
  destruct (fst (metricDataToSplunk cfg md)) as [|dp dps];
    [apply inner_frame_refl|].
  pose proof (encodeBody_inner (dp :: dps) (DisableCompression cfg)
                (snd (wg_Add 1 w))) as He.
  destruct (encodeBody (dp :: dps) (DisableCompression cfg) (snd (wg_Add 1 w)))
    as [[[body compressed] [e|]] w2]; [exact He|].
  eapply inner_frame_trans; [exact He | apply postEvents_inner].
Qed.

Lemma pushTraceData_frame (cfg : Config) (td : Traces) (w : world) :
  push_frame w (snd (pushTraceData cfg td w)).
Proof.
  rewrite pushTraceData_world. apply push_frame_wrap.
  destruct (fst (traceDataToSplunk cfg td)) as [|ev evs];
    [apply inner_frame_refl|].
  pose proof (encodeBody_inner (ev :: evs) (DisableCompression cfg)
                (snd (wg_Add 1 w))) as He.
  change (encodeBody (ev :: evs) (DisableCompression cfg) (snd (wg_Add 1 w)))
    with (encodeBodyEvents (ev :: evs) (DisableCompression cfg)
            (snd (wg_Add 1 w))) in He.
  destruct (encodeBodyEvents (ev :: evs) (DisableCompression cfg)
              (snd (wg_Add 1 w)))
    as [[[body compressed] [e|]] w2]; [exact He|].
  eapply inner_frame_trans; [exact He | apply postEvents_inner].
Qed.

End PushFrames.

Section LogsPush.
Context `{PD : PData} {Conv : Converters} {LD : LogData} {Plat : Platform}.

(** [pushLogData] is its loop, run in the entered world, followed by the
    deferred calls. *)
Lemma pushLogData_eq (cfg : Config) (ld : Logs) (w : world) :
  pushLogData cfg ld w =
  (snd (fst (range_chunks cfg ld (chunkEvents cfg ld) (GzipWriter [] [])
               (entered w))),
   departed
     (fst (fst (range_chunks cfg ld (chunkEvents cfg ld) (GzipWriter [] [])
                  (entered w))))
     (snd (range_chunks cfg ld (chunkEvents cfg ld) (GzipWriter [] [])
             (entered w)))).
Proof.
  unfold pushLogData, bind, wg_Add, zippers_Get, gz_Reset, bind, ret, emit.
  unfold entered.
  destruct (zippers w) as [|z0 idle]; simpl;
    rewrite <- !app_assoc; simpl;
    match goal with
    | |- context [range_chunks ?c ?l ?ch ?z ?W] =>
        destruct (range_chunks c l ch z W) as [[z1 r] w1]
    end; simpl;
    unfold gz_Close, zippers_Put, wg_Done, departed, closed_writer,
      bind, emit, ret; simpl;
    destruct (close_error (gz_in z1)); simpl;
    rewrite <- !app_assoc; reflexivity.
Qed.

Lemma pushLogData_frame (cfg : Config) (ld : Logs) (w : world) :
  push_frame w (snd (pushLogData cfg ld w)).
Proof.
  rewrite pushLogData_eq. simpl snd.
  pose proof (range_chunks_frame cfg ld (chunkEvents cfg ld)
                (GzipWriter [] []) (entered w) eq_refl)
    as (tr & [L W B] & G & Zp & F & P & R).
  destruct (range_chunks cfg ld (chunkEvents cfg ld) (GzipWriter [] [])
              (entered w)) as [[z1 r] w1]. simpl in *.
  exists ([EvPoolGet; EvGzReset] ++ tr ++ [EvCancel; EvGzClose; EvPoolPut]).
  split; [constructor; simpl|].
  - rewrite L. simpl. rewrite <- !app_assoc. reflexivity.
  - rewrite W. rewrite !requests_of_app. simpl. rewrite !app_nil_r. reflexivity.
  - rewrite B. rewrite !requests_of_app. simpl. rewrite !app_nil_r. reflexivity.
  - split; [|split].
    + apply (wg_free_app [EvPoolGet; EvGzReset]); [reflexivity|].
      apply wg_free_app; [exact F | reflexivity].
    + simpl. rewrite pool_run_app, P. reflexivity.
    + simpl in *. lia.
Qed.

End LogsPush.

Section PoolAndBodies.
Context `{PD : PData} {Conv : Converters} {LD : LogData} {Plat : Platform}.

Lemma push_frame_disciplined {A} (m : M A) (w : world) :
  push_frame w (snd (m w)) -> disciplined (trace m w).
Proof.
  intros (mid & E & _ & P & _).
  rewrite (extends_trace m w _ E).
  unfold disciplined. simpl. rewrite pool_run_app, P. reflexivity.
Qed.

Lemma push_frame_bodies (w w' : world) :
  push_frame w w' ->
  exists sent,
    wire w' = wire w ++ sent
    /\ bodies w' = bodies w
         ++ map after_transport (answers_from (List.length (wire w)) sent).
Proof.
  intros (mid & [_ W B] & _). exists (requests_of mid).
  change (EvWgAdd :: mid ++ [EvWgDone]) with ([EvWgAdd] ++ mid ++ [EvWgDone])
    in W, B.
  rewrite !requests_of_app in W, B. simpl in W, B.
  rewrite app_nil_r in W, B. auto.
Qed.

Lemma pushLogData_zippers (cfg : Config) (ld : Logs) (w : world) :
  exists z, zippers (snd (pushLogData cfg ld w)) = z :: tail (zippers w).
Proof.
  rewrite pushLogData_eq. simpl snd.
  pose proof (range_chunks_frame cfg ld (chunkEvents cfg ld)
                (GzipWriter [] []) (entered w) eq_refl)
    as (tr & _ & _ & Zp & _).
  eexists. unfold departed. simpl. rewrite Zp. reflexivity.
Qed.

Lemma getReader_zippers (b : bytes) (d : bool) (w : world) :
  negb d && (len b >? 1500) = true ->
  exists z, zippers (snd (getReader b d w)) = z :: tail (zippers w).
Proof.
  intros Hd. rewrite getReader_eq, Hd.
  destruct (write_error b); [|destruct (close_error b)]; eexists; reflexivity.
Qed.

(** C7: every gzip writer taken from the pool is reset before it is
    written, flushed or closed, and is back in the pool when the operation
    that took it returns, on every path: whatever the writes, the close and
    the transport do.  What [getReader] returns does not depend on the
    state of the writer the pool handed out. *)
Theorem pool_discipline (cfg : Config) (b : bytes) (d : bool)
    (md : Metrics) (td : Traces) (ld : Logs) (w : world) :
  disciplined (trace (getReader b d) w)
  /\ disciplined (trace (pushMetricsData cfg md) w)
  /\ disciplined (trace (pushTraceData cfg td) w)
  /\ disciplined (trace (pushLogData cfg ld) w)
  /\ (exists z, zippers (snd (pushLogData cfg ld w)) = z :: tail (zippers w))
  /\ (if negb d && (len b >? 1500)
      then exists z, zippers (snd (getReader b d w)) = z :: tail (zippers w)
      else zippers (snd (getReader b d w)) = zippers w)
  /\ (forall w', fst (getReader b d w') = fst (getReader b d w)).
Proof.
  split; [|split; [|split; [|split; [|split; [|split]]]]].
  - destruct (getReader_frame b d w) as (tr & E & _ & _ & P & _).
    rewrite (extends_trace _ _ _ E). exact P.
  - apply push_frame_disciplined, pushMetricsData_frame.
  - apply push_frame_disciplined, pushTraceData_frame.
  - apply push_frame_disciplined, pushLogData_frame.
  - apply pushLogData_zippers.
  - destruct (negb d && (len b >? 1500)) eqn:Hd.
    + apply getReader_zippers, Hd.
    + rewrite getReader_eq, Hd. reflexivity.
  - intros w'. apply getReader_value.
Qed.

Lemma pushMetricsData_answered (cfg : Config) (md : Metrics) (w : world)
    (req : request) (resp : response) :
  fst (metricDataToSplunk cfg md) <> [] ->
  batch_encoding (fst (metricDataToSplunk cfg md)) (DisableCompression cfg)
  = inr req ->
  request_error (built w) = None ->
  round_trip (List.length (wire w)) req = inr resp ->
  bodies (snd (pushMetricsData cfg md w)) = bodies w ++ [after_transport resp].
Proof.
  intros Hne Henc Hreq Hrt.
  rewrite pushMetricsData_world.
  destruct (fst (metricDataToSplunk cfg md)) as [|dp dps]; [congruence|].
  pose proof (encodeBody_encoding (dp :: dps) (DisableCompression cfg)
                (snd (wg_Add 1 w))) as He.
  rewrite Henc in He.
  pose proof (encodeBody_http (dp :: dps) (DisableCompression cfg)
                (snd (wg_Add 1 w))) as Hh.
  destruct (encodeBody (dp :: dps) (DisableCompression cfg) (snd (wg_Add 1 w)))
    as [[[b' c'] e'] w2]. simpl in He, Hh. inversion He; subst.
  destruct Hh as (_ & Hb & Hwire & Hbod). simpl in Hb, Hwire, Hbod.
  rewrite postEvents_eq, Hb, Hwire, Hreq. cbv zeta.
  destruct req as [body c]. cbn [req_body req_gzip]. rewrite Hrt. simpl.
  rewrite Hbod. reflexivity.
Qed.

(** C8, amended: whenever the HTTP call succeeds, the transport reads the
    response body until its end or until its first read error, whose
    report it drops, and closes the body before it returns, whatever the
    status code; a body that reads without error is fully drained.  Every
    body a push receives is left so. *)
Theorem response_body_released :
  (forall (events : bytes) (compressed : bool) (w : world) (resp : response),
     request_error (built w) = None ->
     round_trip (List.length (wire w)) (Request events compressed) = inr resp ->
     bodies (snd (postEvents events compressed w))
     = bodies w ++ [after_transport resp])
  /\ (forall (cfg : Config) (md : Metrics) (w : world) (req : request)
             (resp : response),
        fst (metricDataToSplunk cfg md) <> [] ->
        batch_encoding (fst (metricDataToSplunk cfg md)) (DisableCompression cfg)
        = inr req ->
        request_error (built w) = None ->
        round_trip (List.length (wire w)) req = inr resp ->
        bodies (snd (pushMetricsData cfg md w))
        = bodies w ++ [after_transport resp])
  /\ (forall (cfg : Config) (md : Metrics) (td : Traces) (ld : Logs)
             (w : world),
        (exists sent,
           wire (snd (pushMetricsData cfg md w)) = wire w ++ sent
           /\ bodies (snd (pushMetricsData cfg md w)) = bodies w
                ++ map after_transport
                     (answers_from (List.length (wire w)) sent))
        /\ (exists sent,
              wire (snd (pushTraceData cfg td w)) = wire w ++ sent
              /\ bodies (snd (pushTraceData cfg td w)) = bodies w
                   ++ map after_transport
                        (answers_from (List.length (wire w)) sent))
        /\ (exists sent,
              wire (snd (pushLogData cfg ld w)) = wire w ++ sent
              /\ bodies (snd (pushLogData cfg ld w)) = bodies w
                   ++ map after_transport
                        (answers_from (List.length (wire w)) sent)))
  /\ (forall resp : response,
        closed (after_transport resp) = true
        /\ (ReadFault resp = None -> unread (after_transport resp) = [])
        /\ (forall k, ReadFault resp = Some k ->
                      unread (after_transport resp) = drop k (Body resp))).
Proof.
  split; [|split; [|split]].
  - intros events compressed w resp Hreq Hrt.
    rewrite postEvents_eq, Hreq. cbv zeta. rewrite Hrt. reflexivity.
  - apply pushMetricsData_answered.
  - intros cfg md td ld w. split; [|split]; apply push_frame_bodies.
    + apply pushMetricsData_frame.
    + apply pushTraceData_frame.
    + apply pushLogData_frame.
  - intros resp. unfold after_transport.
    destruct (ReadFault resp); simpl; repeat split; try reflexivity;
      try discriminate.
    intros k Hk. inversion Hk. reflexivity.
Qed.

End PoolAndBodies.

Section Loop.
Context `{PD : PData} {Conv : Converters} {LD : LogData} {Plat : Platform}.
Variables (cfg : Config) (ld : Logs).

(** One more turn of the loop on a chunk that is ready and empty. *)
Lemma range_chunks_skip (c : eventsBuf) (post : list eventsBuf)
    (z : gzip_Writer) (w : world) :
  err c = None -> buf c = [] ->
  range_chunks cfg ld (c :: post) z w = range_chunks cfg ld post z w.
Proof. intros He Hb. simpl. rewrite He, Hb. reflexivity. Qed.

Lemma range_chunks_skip_inside (pre : list eventsBuf) (c : eventsBuf)
    (post : list eventsBuf) :
  err c = None -> buf c = [] ->
  forall (z : gzip_Writer) (w : world),
    range_chunks cfg ld (pre ++ c :: post) z w
    = range_chunks cfg ld (pre ++ post) z w.
Proof.
  intros He Hb.
  induction pre as [|a pre IH]; intros z w.
  - apply range_chunks_skip; assumption.
  - simpl. destruct (err a); [reflexivity|].
    destruct (len (buf a) =? 0); [apply IH|].
    destruct ((len (buf a) <=? 1500) || DisableCompression cfg).
    + unfold bind. destruct (postEvents (buf a) false w) as [[e|] w1];
        [reflexivity | apply IH].
    + unfold bind. destruct (gz_Write z (buf a) w) as [[z1 [msg|]] w1];
        [reflexivity|].
      destruct (gz_Flush z1 w1) as [z2 w2].
      destruct (postEvents (gz_out z2) true w2) as [[e|] w3]; [reflexivity|].
      destruct (gz_Reset z2 w3) as [z4 w4]. apply IH.
Qed.

(** C9: in the loop of the logs push, a ready chunk with an empty buffer
    is passed over: the run with it is the run without it, so no request
    is made for it and the result and the handling of the chunks after it
    are those of the sequence without it. *)
Theorem empty_chunk_skipped (pre : list eventsBuf) (c : eventsBuf)
    (post : list eventsBuf) (z : gzip_Writer) (w : world) :
  err c = None ->
  len (buf c) = 0 ->
  range_chunks cfg ld (c :: post) z w = range_chunks cfg ld post z w
  /\ range_chunks cfg ld (pre ++ c :: post) z w
     = range_chunks cfg ld (pre ++ post) z w.
Proof.
  intros He Hlen.
  assert (Hb : buf c = [])
    by (apply len_nil_iff; rewrite Hlen; reflexivity).
  split.
  - apply range_chunks_skip; assumption.
  - apply range_chunks_skip_inside; assumption.
Qed.

(** A part of the sequence that is gone through without error hands the
    loop over to the rest, with a writer that holds no input. *)
Lemma range_chunks_through (pre : list eventsBuf) :
  forall (z : gzip_Writer) (w : world) (z1 : gzip_Writer) (n : Z) (w1 : world),
    gz_in z = [] ->
    range_chunks cfg ld pre z w = ((z1, (n, None)), w1) ->
    gz_in z1 = [] /\
    forall rest, range_chunks cfg ld (pre ++ rest) z w
                 = range_chunks cfg ld rest z1 w1.
Proof.
  induction pre as [|a pre IH]; intros z w z1 n w1 Hz Hrun; simpl in *.
  - inversion Hrun; subst. auto.
  - destruct (err a); [discriminate|].
    destruct (len (buf a) =? 0); [eapply IH; eassumption|].
    destruct ((len (buf a) <=? 1500) || DisableCompression cfg).
    + unfold bind in *.
      destruct (postEvents (buf a) false w) as [[e|] w2];
        [discriminate | eapply IH; eassumption].
    + unfold bind in *.
      destruct (gz_Write z (buf a) w) as [[z2 [msg|]] w2]; [discriminate|].
      destruct (gz_Flush z2 w2) as [z3 w3].
      destruct (postEvents (gz_out z3) true w3) as [[e|] w4]; [discriminate|].
      destruct (gz_Reset z3 w4) as [z5 w5] eqn:Hreset.
      assert (gz_in z5 = [])
        by (unfold gz_Reset, bind, ret in Hreset;
            destruct (emit EvGzReset w4); inversion Hreset; reflexivity).
      eapply IH; eassumption.
Qed.

(** The outcome of [postEvents] depends on the world through the two
    counters of the HTTP side only. *)
Lemma postEvents_same_http (b : bytes) (c : bool) (w w' : world) :
  built w' = built w -> wire w' = wire w ->
  fst (postEvents b c w') = fst (postEvents b c w)
  /\ wire (snd (postEvents b c w')) = wire (snd (postEvents b c w)).
Proof.
  intros Hb Hw. rewrite !postEvents_eq, Hb, Hw.
  destruct (request_error (built w)); simpl; [auto|].
  destruct (round_trip (List.length (wire w)) (Request b c)); simpl;
    rewrite ?Hw; auto.
Qed.

(** The chunk at the head fails to be transmitted: the loop returns at
    once with the count and the remainder from that chunk. *)
Lemma range_chunks_fail (c : eventsBuf) (post : list eventsBuf)
    (z : gzip_Writer) (w : world) (e : error) :
  gz_in z = [] ->
  err c = None -> buf c <> [] ->
  (req_gzip (chunk_wire cfg c) = true -> write_error (buf c) = None) ->
  fst (postEvents (req_body (chunk_wire cfg c)) (req_gzip (chunk_wire cfg c)) w)
  = Some e ->
  snd (fst (range_chunks cfg ld (c :: post) z w))
  = (numLogs ld (index c), Some (partialLogs e (subLogs ld (index c))))
  /\ wire (snd (range_chunks cfg ld (c :: post) z w))
     = wire (snd (postEvents (req_body (chunk_wire cfg c))
                             (req_gzip (chunk_wire cfg c)) w)).
Proof.
  intros Hz He Hb Hwr Hpost. simpl. rewrite He.
  assert (Hlen : (len (buf c) =? 0) = false).
  { destruct (len (buf c) =? 0) eqn:Hl; [|reflexivity].
    apply len_nil_iff in Hl. contradiction. }
  rewrite Hlen. unfold chunk_wire in *.
  destruct ((len (buf c) <=? 1500) || DisableCompression cfg); simpl in *.
  - unfold bind. destruct (postEvents (buf c) false w) as [r w1].
    simpl in *. subst r. auto.
  - unfold bind, gz_Write, gz_Flush, bind, ret, emit.
    rewrite (Hwr eq_refl), Hz. simpl.
    match goal with
    | |- context [postEvents ?b ?f ?W] =>
        destruct (postEvents_same_http b f w W eq_refl eq_refl) as [Hr Hwire];
        destruct (postEvents b f W) as [r w1]
    end.
    simpl in *. rewrite Hpost in Hr. subst r. simpl. auto.
Qed.

End Loop.

(** * The logs push over the chunk producer *)

Section PartialFailure.
Variables E Me Tr R : Type.
Variable encode_record : Config -> R -> string + bytes.

Let PD : PData := logsPData E Me Tr R.
Let LD : @LogData PD := specLogData E Me Tr R encode_record.
#[local] Existing Instance PD.
#[local] Existing Instance LD.

Context {Conv : @Converters PD} {Plat : Platform}.

(** The producer hands out every record once, in order, and the index of a
    chunk counts the records of the chunks before it. *)
Lemma produce_partition (cfg : Config) (recs : list R) :
  forall (start : nat) (acc : bytes) (held : list R),
    concat (map snd (produce E Me Tr R encode_record cfg recs start acc held))
    = held ++ recs
    /\ forall pre c post,
         produce E Me Tr R encode_record cfg recs start acc held
         = pre ++ c :: post ->
         index (fst c) = (start + List.length (concat (map snd pre)))%nat.
Proof.
  induction recs as [|r recs IH]; intros start acc held; simpl.
  - split; [rewrite app_nil_r; reflexivity|].
    intros [|p pre] c post Heq; simpl in Heq.
    + inversion Heq; subst. simpl. lia.
    + inversion Heq as [[Hp Hrest]]. destruct pre; discriminate.
  - destruct (encode_record cfg r) as [msg|e].
    + simpl. split; [rewrite app_nil_r; reflexivity|].
      intros [|p pre] c post Heq; simpl in Heq.
      * inversion Heq; subst. simpl. lia.
      * inversion Heq as [[Hp Hrest]]. destruct pre; discriminate.
    + destruct (len acc + len e >? MaxContentLength cfg).
      * destruct (IH (start + List.length held)%nat e [r]) as [Hcat Hidx].
        simpl. split; [rewrite Hcat; reflexivity|].
        intros [|p pre] c post Heq; simpl in Heq.
        -- inversion Heq; subst. simpl. lia.
        -- inversion Heq as [[Hp Hrest]]. subst p.
           rewrite (Hidx _ _ _ Hrest). simpl.
           rewrite length_app. lia.
      * destruct (IH start (acc ++ e) (held ++ [r])) as [Hcat Hidx].
        split; [rewrite Hcat, <- app_assoc; reflexivity | exact Hidx].
Qed.

Lemma chunks_of_split (cfg : Config) (ld : list R)
    (pre : list (eventsBuf * list R)) (c : eventsBuf * list R)
    (post : list (eventsBuf * list R)) :
  chunks_of E Me Tr R encode_record cfg ld = pre ++ c :: post ->
  ld = concat (map snd pre) ++ concat (map snd (c :: post))
  /\ index (fst c) = List.length (concat (map snd pre)).
Proof.
  intros Heq. unfold chunks_of in Heq.
  destruct (produce_partition cfg ld 0%nat [] []) as [Hcat Hidx].
  split.
  - rewrite Heq, map_app, concat_app in Hcat. simpl in Hcat.
    symmetry. exact Hcat.
  - exact (Hidx _ _ _ Heq).
Qed.

(** C1: when the transmission of chunk k fails, the logs push returns at
    once with a partial-failure error; its count is the number of records
    from chunk k onward and the batch it carries holds exactly the records
    of chunks k to n, those of chunks 1 to k-1 being the part of the batch
    before it; nothing reaches the wire after the failed attempt. *)
Theorem pushLogData_partial_failure (cfg : Config) (ld : @Logs PD) (w : world)
    (pre : list (eventsBuf * list R)) (c : eventsBuf * list R)
    (post : list (eventsBuf * list R))
    (z1 : gzip_Writer) (n : Z) (w1 : world) (e : error) :
  chunks_of E Me Tr R encode_record cfg ld = pre ++ c :: post ->
  range_chunks cfg ld (map fst pre) (GzipWriter [] []) (entered w)
  = ((z1, (n, None)), w1) ->
  err (fst c) = None ->
  buf (fst c) <> [] ->
  (req_gzip (chunk_wire cfg (fst c)) = true -> write_error (buf (fst c)) = None) ->
  fst (postEvents (req_body (chunk_wire cfg (fst c)))
                  (req_gzip (chunk_wire cfg (fst c))) w1) = Some e ->
  let remainder := concat (map snd (c :: post)) in
  fst (pushLogData cfg ld w) = (len remainder, Some (partialLogs e remainder))
  /\ ld = concat (map snd pre) ++ remainder
  /\ numLogs ld (index (fst c)) = len remainder
  /\ subLogs ld (index (fst c)) = remainder
  /\ (wire (snd (pushLogData cfg ld w)) = wire w1
      \/ wire (snd (pushLogData cfg ld w)) = wire w1 ++ [chunk_wire cfg (fst c)]).
Proof.
  intros Hchunks Hpre Herr Hbuf Hwrite Hpost remainder.
  destruct (chunks_of_split cfg ld pre c post Hchunks) as [Hld Hidx].
  assert (Hsub : subLogs ld (index (fst c)) = remainder).
  { simpl. rewrite Hidx. rewrite Hld at 1. apply drop_length_app. }
  assert (Hnum : numLogs ld (index (fst c)) = len remainder).
  { simpl. rewrite Hidx. rewrite Hld at 1. rewrite drop_length_app.
    reflexivity. }
  destruct (range_chunks_through (PD:=PD) cfg ld (map fst pre)
              (GzipWriter [] []) (entered w) z1 n w1 eq_refl Hpre)
    as [Hz1 Hthrough].
  destruct (range_chunks_fail (PD:=PD) cfg ld (fst c) (map fst post) z1 w1 e
              Hz1 Herr Hbuf Hwrite Hpost) as [Hres Hwire].
  assert (Hrun : range_chunks cfg ld (chunkEvents cfg ld) (GzipWriter [] [])
                   (entered w)
                 = range_chunks cfg ld (fst c :: map fst post) z1 w1).
  { change (chunkEvents cfg ld)
      with (map fst (chunks_of E Me Tr R encode_record cfg ld)).
    rewrite Hchunks, map_app. simpl map. apply Hthrough. }
  rewrite pushLogData_eq, Hrun.
  destruct (range_chunks cfg ld (fst c :: map fst post) z1 w1) as [[z2 r] w2].
  cbn [fst snd] in Hres, Hwire |- *.
  split; [|split; [exact Hld|split; [exact Hnum|split; [exact Hsub|]]]].
  - rewrite Hres, Hnum, Hsub. reflexivity.
  - unfold departed. cbn [wire]. rewrite Hwire.
    destruct (postEvents_frame (req_body (chunk_wire cfg (fst c)))
                (req_gzip (chunk_wire cfg (fst c))) w1)
      as (tr & [_ W _] & _ & _ & Htr).
    rewrite W.
    destruct Htr as [-> | ->]; simpl.
    + left. apply app_nil_r.
    + right. destruct (chunk_wire cfg (fst c)); reflexivity.
Qed.

End PartialFailure.

(** * Shutdown *)

Lemma wg_free_cons (e : event) (tr : list event) :
  wg_free (e :: tr) <-> is_wg e = false /\ wg_free tr.
Proof.
  unfold wg_free. simpl. rewrite andb_true_iff, negb_true_iff. tauto.
Qed.

Lemma wg_free_app_inv (t1 t2 : list event) :
  wg_free (t1 ++ t2) -> wg_free t1 /\ wg_free t2.
Proof.
  unfold wg_free. rewrite forallb_app, andb_true_iff. tauto.
Qed.

Lemma wg_free_quiet (tr : list event) :
  wg_free tr ->
  pending tr = 0 /\ existsb is_Done tr = false /\ existsb is_Add tr = false.
Proof.
  induction tr as [|e tr IH]; [auto|].
  intros H. apply wg_free_cons in H. destruct H as [He Htr].
  destruct (IH Htr) as (Hp & Hd & Ha).
  destruct e; simpl in *; try discriminate; rewrite ?Hp, ?Hd, ?Ha; auto.
Qed.

Lemma pending_app (t1 t2 : list event) :
  pending (t1 ++ t2) = pending t1 + pending t2.
Proof. induction t1 as [|e t1 IH]; simpl; [reflexivity | rewrite IH; lia]. Qed.

Lemma in_flight_tail (mid : list event) :
  wg_free mid ->
  pending (mid ++ [EvWgDone]) = 1 /\ in_flight (mid ++ [EvWgDone]) = true.
Proof.
  intros H. destruct (wg_free_quiet mid H) as (Hp & Hd & Ha).
  split.
  - rewrite pending_app, Hp. reflexivity.
  - unfold in_flight. rewrite !existsb_app, Ha. simpl.
    rewrite orb_true_r. reflexivity.
Qed.

Lemma standing_push (mid pre p : list event) :
  wg_free mid ->
  EvWgAdd :: mid ++ [EvWgDone] = pre ++ p ->
  standing p.
Proof.
  intros Hmid Heq.
  destruct pre as [|a pre]; simpl in Heq.
  - subst p. left. destruct (in_flight_tail mid Hmid) as [Hp _].
    split; [simpl; rewrite Hp; reflexivity|].
    unfold in_flight. simpl. apply andb_false_r.
  - inversion Heq as [[Ha Hrest]]. clear Heq.
    apply app_eq_app in Hrest.
    destruct Hrest as [l [[Hm Hp] | [Hm Hp]]].
    + subst. apply wg_free_app_inv in Hmid. destruct Hmid as [_ Hl].
      right. apply in_flight_tail, Hl.
    + destruct l as [|x l]; simpl in Hp.
      * subst p. right. apply (in_flight_tail [] eq_refl).
      * inversion Hp as [[Hx Hl]].
        destruct l; [|discriminate]. simpl in Hl. subst p.
        left. auto.
Qed.

Lemma standing_stop (pre p : list event) : stop_program = pre ++ p -> standing p.
Proof.
  unfold stop_program. intros Heq.
  destruct pre as [|a pre]; simpl in Heq.
  - subst p. left. auto.
  - inversion Heq as [[Ha Hrest]].
    destruct pre; [|discriminate]. simpl in Hrest. subst p. left. auto.
Qed.

Lemma owed_insert (ts : list (list event)) (i : nat) (e : event)
    (rest : list event) :
  ts !! i = Some (e :: rest) ->
  owed (<[i := rest]> ts) = owed ts - pending (e :: rest) + pending rest.
Proof.
  revert i. induction ts as [|p ts IH]; intros [|i] H; simpl in *;
    try discriminate.
  - inversion H; subst. simpl. lia.
  - rewrite (IH i H). simpl. lia.
Qed.

Lemma after_pending (c : Z) (e : event) (rest : list event) :
  after c e = c - pending (e :: rest) + pending rest.
Proof. destruct e; simpl; lia. Qed.

Lemma owed_zero (ts : list (list event)) :
  Forall standing ts ->
  owed ts = 0 <-> Forall (fun p => in_flight p = false) ts.
Proof.
  induction 1 as [|p ts Hp Hts IH]; simpl.
  - split; [constructor | reflexivity].
  - assert (Hnn : 0 <= owed ts).
    { clear IH. induction Hts as [|q ts Hq _ IHq]; simpl; [lia|].
      destruct Hq as [[Hq _] | [Hq _]]; lia. }
    split.
    + intros Hsum.
      destruct Hp as [[Hp0 Hf] | [Hp1 Hf]]; [|lia].
      constructor; [exact Hf | apply IH; lia].
    + intros Hall. inversion Hall as [|? ? Hf Hrest]; subst.
      destruct Hp as [[Hp0 _] | [_ Hf']]; [|congruence].
      apply IH in Hrest. lia.
Qed.

Section Shutdown.
Context `{PD : PData} {Conv : Converters} {LD : LogData} {Plat : Platform}.

Lemma push_frame_shape {A} (m : M A) (w : world) :
  push_frame w (snd (m w)) ->
  exists mid, trace m w = EvWgAdd :: mid ++ [EvWgDone] /\ wg_free mid.
Proof.
  intros (mid & E & F & _ & _). exists mid.
  split; [eapply extends_trace; exact E | exact F].
Qed.

Lemma push_program_shape (p : list event) :
  push_program p -> exists mid, p = EvWgAdd :: mid ++ [EvWgDone] /\ wg_free mid.
Proof.
  intros [cfg md w | cfg td w | cfg ld w]; apply push_frame_shape.
  - apply pushMetricsData_frame.
  - apply pushTraceData_frame.
  - apply pushLogData_frame.
Qed.

Lemma goroutine_standing (q pre p : list event) :
  goroutine q -> q = pre ++ p -> standing p.
Proof.
  intros [Hq | Hq] Heq.
  - destruct (push_program_shape q Hq) as (mid & -> & Hmid).
    eapply standing_push; eassumption.
  - subst q. eapply standing_stop; eassumption.
Qed.

Lemma balanced_standing (s : system) : balanced s -> Forall standing (threads s).
Proof.
  intros [_ H]. eapply Forall_impl; [exact H|].
  intros p (q & pre & Hq & Heq). eapply goroutine_standing; eassumption.
Qed.

Lemma balanced_start (ps : list (list event)) :
  Forall goroutine ps -> balanced (System 0 ps).
Proof.
  intros Hps.
  assert (Hsuf : Forall (fun p => exists q pre, goroutine q /\ q = pre ++ p) ps).
  { eapply Forall_impl; [exact Hps|]. intros p Hp. exists p, []. auto. }
  split; [|exact Hsuf]. simpl.
  clear Hsuf. induction Hps as [|p ps Hp _ IH]; simpl; [reflexivity|].
  rewrite <- IH.
  destruct Hp as [Hp | ->]; [|reflexivity].
  destruct (push_program_shape p Hp) as (mid & -> & Hmid).
  destruct (in_flight_tail mid Hmid) as [Hpend _].
  simpl. rewrite Hpend. reflexivity.
Qed.

Lemma balanced_step (s s' : system) (i : nat) (e : event) :
  balanced s -> step s i e s' -> balanced s'.
Proof.
  intros [Hc Hf] Hstep. inversion Hstep as [s0 i0 e0 rest Hi Hen]; subst.
  split; simpl.
  - rewrite (owed_insert _ _ _ _ Hi), (after_pending _ e rest), Hc. reflexivity.
  - apply Forall_insert; [exact Hf|].
    rewrite Forall_lookup in Hf. destruct (Hf _ _ Hi) as (q & pre & Hq & Heq).
    exists q, (pre ++ [e]). split; [exact Hq|].
    rewrite <- app_assoc. exact Heq.
Qed.

Lemma balanced_reachable (ps : list (list event)) (s : system) :
  Forall goroutine ps -> reachable (System 0 ps) s -> balanced s.
Proof.
  intros Hps Hr. induction Hr as [|s i e s' _ IH Hstep].
  - apply balanced_start, Hps.
  - eapply balanced_step; eassumption.
Qed.

Lemma push_frame_wg (w w' : world) : push_frame w w' -> wg w' = wg w.
Proof. intros (mid & _ & _ & _ & G). exact G. Qed.

(** C6: [stop] waits for the pushes.  Every push registers with the wait
    group before anything else and unregisters last, so all its
    transmissions lie in between; among goroutines that push or stop, the
    [Wait] of [stop] is passed only in a state where no push is in flight,
    and it can be passed as soon as none is; a [stop] called when the
    counter is back at zero returns at once, which is the case after pushes
    that have returned; [start] does nothing and returns nil. *)
Theorem stop_waits_for_pushes (ps : list (list event)) (s : system) :
  Forall goroutine ps ->
  reachable (System 0 ps) s ->
  (forall i s', step s i EvWgWait s' ->
     Forall (fun p => in_flight p = false) (threads s))
  /\ (Forall (fun p => in_flight p = false) (threads s) -> counter s = 0)
  /\ (forall p, push_program p ->
        exists mid, p = EvWgAdd :: mid ++ [EvWgDone] /\ wg_free mid)
  /\ (forall w, fst (stop w) = if wg w =? 0 then Some None else None)
  /\ (forall cfg md td ld w,
        wg (snd (pushMetricsData cfg md w)) = wg w
        /\ wg (snd (pushTraceData cfg td w)) = wg w
        /\ wg (snd (pushLogData cfg ld w)) = wg w)
  /\ (forall w, start w = (None, w)).
Proof.
  intros Hps Hreach.
  pose proof (balanced_reachable ps s Hps Hreach) as Hbal.
  pose proof (balanced_standing s Hbal) as Hst.
  destruct Hbal as [Hc _].
  split; [|split; [|split; [|split; [|split]]]].
  - intros i s' Hstep. inversion Hstep as [s0 i0 e0 rest Hi Hen]; subst.
    apply owed_zero; [exact Hst|]. rewrite <- Hc. apply Hen. reflexivity.
  - intros Hall. rewrite Hc. apply owed_zero; assumption.
  - apply push_program_shape.
  - intros w. unfold stop, bind, wg_Wait.
    destruct (wg w =? 0); reflexivity.
  - intros cfg md td ld w. split; [|split]; apply push_frame_wg.
    + apply pushMetricsData_frame.
    + apply pushTraceData_frame.
    + apply pushLogData_frame.
  - intros w. reflexivity.
Qed.

End Shutdown.

(** * Compression *)

Lemma wanted_iff (d : bool) (n : Z) :
  wanted d n = true <-> d = false /\ 1500 < n.
Proof.
  unfold wanted. rewrite andb_true_iff, negb_true_iff.
  split; intros [Hd Hn]; split; try exact Hd; lia.
Qed.

Lemma wanted_raw (d : bool) (n : Z) :
  (n <=? 1500) || d = negb (wanted d n).
Proof.
  unfold wanted. destruct d; simpl; [apply orb_true_r|].
  rewrite orb_false_r. destruct (n <=? 1500) eqn:H1, (n >? 1500) eqn:H2;
    try reflexivity; lia.
Qed.

Section Compression.
Context `{PD : PData} {Conv : Converters} {LD : LogData} {Plat : Platform}.

Lemma getReader_decision (b : bytes) (d : bool) (w : world) :
  match fst (getReader b d w) with
  | (body, compressed, None) =>
      compressed = wanted d (len b)
      /\ body = (if compressed then gzip b else b)
  | (body, compressed, Some _) => compressed = false /\ body = b
  end.
Proof.
  rewrite getReader_eq. fold (wanted d (len b)).
  destruct (wanted d (len b)); [|simpl; auto].
  destruct (write_error b); [simpl; auto|].
  destruct (close_error b); simpl; auto.
Qed.


End Compression.

(** * The wire body and its decoding *)

Lemma split_events_step (a : byte) (tl cur : bytes) :
  a <> x0d -> split_events (a :: tl) cur = split_events tl (a :: cur).
Proof.
  intros Ha.
  assert (Hneq : Byte.eqb a x0d = false).
  { destruct (Byte.eqb a x0d) eqn:Heq; [|reflexivity].
    apply byte_dec_bl in Heq. contradiction. }
  destruct tl as [|c2 [|c3 [|c4 rest]]]; try reflexivity.
  cbn [split_events]. unfold is_CRLF2. rewrite Hneq. reflexivity.
Qed.

Lemma split_events_piece (piece rest : bytes) :
  ~ In x0d piece ->
  forall cur,
    split_events (piece ++ CRLF2 ++ rest) cur
    = (rev cur ++ piece) :: split_events rest [].
Proof.
  induction piece as [|a piece IH]; intros Hcr cur.
  - rewrite app_nil_r. reflexivity.
  - change ((a :: piece) ++ CRLF2 ++ rest)
      with (a :: (piece ++ CRLF2 ++ rest)).
    rewrite split_events_step by (intros ->; apply Hcr; left; reflexivity).
    rewrite IH by (intros Hin; apply Hcr; right; exact Hin).
    simpl. rewrite <- app_assoc. reflexivity.
Qed.

Lemma split_events_framed (jss : list bytes) :
  Forall (fun js => ~ In x0d js) jss ->
  split_events (concat (map framed jss)) []
  = map (fun js => js ++ [x0a]) jss.
Proof.
  induction 1 as [|js jss Hjs _ IH]; [reflexivity|].
  simpl concat. unfold framed at 1.
  rewrite (app_assoc js [x0a] CRLF2), <- app_assoc.
  rewrite split_events_piece.
  - simpl. rewrite IH. reflexivity.
  - intros Hin. apply in_app_or in Hin. destruct Hin as [Hin | Hin].
    + contradiction.
    + simpl in Hin. destruct Hin as [Hin | []]. discriminate.
Qed.

Section RoundTrip.
Context `{PD : PData} {Conv : Converters} {Plat : Platform} {Dec : Decoder}.

Lemma encode_events_marshalled (evs : list Event) (jss : list bytes) :
  marshalled evs jss ->
  forall buf, encode_events evs buf = inr (buf ++ concat (map framed jss)).
Proof.
  induction 1 as [|e js evs jss He _ IH]; intros buf; simpl.
  - rewrite app_nil_r. reflexivity.
  - unfold Encoder_Encode. rewrite He, IH. unfold framed.
    rewrite <- !app_assoc. reflexivity.
Qed.

Context {Laws : DecoderLaws}.

Lemma marshalled_no_CR (evs : list Event) (jss : list bytes) :
  marshalled evs jss -> Forall (fun js => ~ In x0d js) jss.
Proof.
  induction 1 as [|e js evs jss He _ IH]; constructor; [|exact IH].
  eapply marshal_no_CR; exact He.
Qed.

Lemma parse_events_lines (evs : list Event) (jss : list bytes) :
  marshalled evs jss ->
  parse_events (map (fun js => js ++ [x0a]) jss) = Some evs.
Proof.
  induction 1 as [|e js evs jss He _ IH]; [reflexivity|].
  simpl. rewrite (unmarshal_line e js He), IH. reflexivity.
Qed.

Lemma decode_raw (evs : list Event) (jss : list bytes) :
  marshalled evs jss ->
  decode_body (concat (map framed jss)) false = Some evs
  /\ decode_body (gzip (concat (map framed jss))) true = Some evs.
Proof.
  intros Hm. unfold decode_body. rewrite gunzip_gzip.
  rewrite split_events_framed by (eapply marshalled_no_CR; exact Hm).
  rewrite (parse_events_lines evs jss Hm). auto.
Qed.

Lemma getReader_round_trip (evs : list Event) (jss : list bytes) (d : bool)
    (w : world) :
  marshalled evs jss ->
  let raw := concat (map framed jss) in
  match fst (getReader raw d w) with
  | (body, compressed, None) =>
      body = (if compressed then gzip raw else raw)
      /\ decode_body body compressed = Some evs
  | (_, _, Some _) =>
      wanted d (len raw) = true
      /\ (write_error raw <> None \/ close_error raw <> None)
  end.
Proof.
  intros Hm raw. destruct (decode_raw evs jss Hm) as [Hplain Hgz].
  rewrite getReader_eq. fold (wanted d (len raw)).
  destruct (wanted d (len raw)); [|simpl; auto].
  destruct (write_error raw) eqn:Hw; [simpl; split; [reflexivity | left; congruence]|].
  destruct (close_error raw) eqn:Hc; simpl; [|auto].
  split; [reflexivity | right; congruence].
Qed.

(** C3, amended: the wire body is the concatenation, in input order, of
    the JSON encoding of each event followed by the newline of the stream
    encoder and then by the two-CRLF separator; it is sent as it is or
    gzip-compressed as a whole, and decoding it (un-gzip if compressed,
    split on the separator, parse each piece) gives back the events in
    order. *)
Theorem wire_body_round_trip (evs : list Event) (jss : list bytes) (d : bool)
    (w : world) :
  marshalled evs jss ->
  let raw := concat (map framed jss) in
  encode_events evs [] = inr raw
  /\ match fst (encodeBodyEvents evs d w) with
     | (body, compressed, None) =>
         body = (if compressed then gzip raw else raw)
         /\ decode_body body compressed = Some evs
     | (_, _, Some _) =>
         wanted d (len raw) = true
         /\ (write_error raw <> None \/ close_error raw <> None)
     end
  /\ match fst (encodeBody evs d w) with
     | (body, compressed, None) =>
         body = (if compressed then gzip raw else raw)
         /\ decode_body body compressed = Some evs
     | (_, _, Some _) =>
         wanted d (len raw) = true
         /\ (write_error raw <> None \/ close_error raw <> None)
     end.
Proof.
  intros Hm raw.
  pose proof (encode_events_marshalled evs jss Hm []) as Henc.
  simpl in Henc. fold raw in Henc.
  split; [exact Henc|].
  unfold encodeBodyEvents, encodeBody. rewrite Henc.
  split; apply getReader_round_trip; exact Hm.
Qed.

End RoundTrip.

(** * The statements at work on the small instance *)

Lemma toy_laws (rt : nat -> string + response) :
  @DecoderLaws Toy.pdata Toy.converters (Toy.platform rt) Toy.decoder.
Proof.
  constructor.
  - reflexivity.
  - intros [] js Hjs; inversion Hjs; subst; simpl; intuition discriminate.
  - intros [] js Hjs; inversion Hjs; subst; reflexivity.
Qed.

(** C3 as stated fails: the body of one event carries the newline that
    [Encode] writes after the JSON encoding, which the wording "JSON
    serialization followed by the separator" leaves out. *)
Lemma wire_body_is_not_spec_body :
  exists raw,
    @encode_events Toy.pdata Toy.converters [true] [] = inr raw
    /\ @spec_body Toy.pdata Toy.converters [true] <> Some raw.
Proof.
  exists (Toy.json_true ++ [x0a] ++ CRLF2).
  split; [reflexivity|]. simpl. intros Heq. discriminate Heq.
Qed.

Lemma wire_body_round_trip_witness :
  @encode_events Toy.pdata Toy.converters Toy.two_events []
  = inr (concat (map framed [Toy.json_true; Toy.json_false]))
  /\ @decode_body Toy.pdata Toy.decoder
       (concat (map framed [Toy.json_true; Toy.json_false])) false
     = Some Toy.two_events.
Proof.
  assert (Hm : @marshalled Toy.pdata Toy.converters Toy.two_events
                 [Toy.json_true; Toy.json_false])
    by (repeat constructor).
  destruct (@wire_body_round_trip Toy.pdata Toy.converters
              (Toy.platform Toy.accept_all) Toy.decoder
              (toy_laws Toy.accept_all)
              Toy.two_events [Toy.json_true; Toy.json_false]
              false Toy.w0 Hm) as (Henc & Hsend & _).
  split; [exact Henc|]. exact (proj2 Hsend).
Defined.

Lemma status_classification_witness :
  (fst (postEvents (PD:=Toy.pdata) (Plat:=Toy.platform (Toy.answer 404))
          [x61] false Toy.w0)
   = Some (errorString
             ("HTTP 404 " ++ String dquote ("Not Found" ++ String dquote EmptyString)))
   /\ verdict
        (fst (postEvents (PD:=Toy.pdata) (Plat:=Toy.platform (Toy.answer 404))
                [x61] false Toy.w0))
        404)
  /\ (snd (fst (pushMetricsData (Conv:=Toy.converters)
                  (Plat:=Toy.platform (Toy.answer 503))
                  Toy.cfg0 [true] Toy.w0))
      = Some (errorString
                ("HTTP 503 "
                 ++ String dquote ("Service Unavailable" ++ String dquote EmptyString)))
      /\ verdict
           (snd (fst (pushMetricsData (Conv:=Toy.converters)
                        (Plat:=Toy.platform (Toy.answer 503))
                        Toy.cfg0 [true] Toy.w0)))
           503).
Proof.
  split; (split; [reflexivity|]).
  - exact (proj1 (status_classification (Conv:=Toy.converters)
                    (Plat:=Toy.platform (Toy.answer 404)))
             [x61] false Toy.w0 (Response 404 [x6f; x6b] None)
             eq_refl eq_refl).
  - refine (proj2 (status_classification (Conv:=Toy.converters)
                     (Plat:=Toy.platform (Toy.answer 503)))
              Toy.cfg0 [true] Toy.w0 (Request (framed Toy.json_true) false)
              (Response 503 [x6f; x6b] None) _ eq_refl eq_refl eq_refl).
    discriminate.
Defined.

Lemma no_events_no_request_witness :
  (fst (pushMetricsData (Conv:=Toy.dropping)
          (Plat:=Toy.platform Toy.accept_all) Toy.cfg0 [false; false] Toy.w0)
   = (2, None)
   /\ wire (snd (pushMetricsData (Conv:=Toy.dropping)
                   (Plat:=Toy.platform Toy.accept_all)
                   Toy.cfg0 [false; false] Toy.w0)) = [])
  /\ (fst (pushTraceData (Conv:=Toy.dropping)
             (Plat:=Toy.platform Toy.accept_all) Toy.cfg0 [false] Toy.w0)
      = (1, None)
      /\ wire (snd (pushTraceData (Conv:=Toy.dropping)
                      (Plat:=Toy.platform Toy.accept_all)
                      Toy.cfg0 [false] Toy.w0)) = []).
Proof.
  destruct (no_events_no_request (Conv:=Toy.dropping)
              (Plat:=Toy.platform Toy.accept_all) Toy.cfg0 Toy.w0)
    as [Hm Ht].
  destruct (Hm [false; false] 2 eq_refl) as (Hmr & _ & _ & _ & Hmw & _).
  destruct (Ht [false] 1 eq_refl) as (Htr & _ & _ & _ & Htw & _).
  split; split; assumption.
Defined.

(** C8 as stated fails: the round trip succeeds and the transport returns
    nil, yet the body, whose second read fails, is left closed with bytes
    unread; [io.Copy] stops at the error and its report is dropped. *)
Lemma body_left_unread :
  round_trip (Platform:=Toy.platform Toy.cut_short) 0 (Request [x61] false)
  = inr (Response 200 [x6f; x6b; x21] (Some 1%nat))
  /\ fst (postEvents (PD:=Toy.pdata) (Plat:=Toy.platform Toy.cut_short)
            [x61] false Toy.w0) = None
  /\ bodies (snd (postEvents (PD:=Toy.pdata) (Plat:=Toy.platform Toy.cut_short)
                    [x61] false Toy.w0))
     = [Reader [x6b; x21] (Some 0%nat) true]
  /\ bodies (snd (pushMetricsData (Conv:=Toy.converters)
                    (Plat:=Toy.platform Toy.cut_short) Toy.cfg0 [true] Toy.w0))
     = [Reader [x6b; x21] (Some 0%nat) true].
Proof. repeat split. Qed.

Lemma response_body_released_witness :
  bodies (snd (postEvents (PD:=Toy.pdata)
                 (Plat:=Toy.platform (Toy.answer 503)) [x61] false Toy.w0))
  = [Reader [] None true]
  /\ bodies (snd (pushMetricsData (Conv:=Toy.converters)
                    (Plat:=Toy.platform Toy.cut_short) Toy.cfg0 [true] Toy.w0))
     = [Reader [x6b; x21] (Some 0%nat) true].
Proof.
  destruct (response_body_released (Conv:=Toy.converters) (LD:=Toy.logdata)
              (Plat:=Toy.platform (Toy.answer 503))) as (Hpost & _).
  destruct (response_body_released (Conv:=Toy.converters) (LD:=Toy.logdata)
              (Plat:=Toy.platform Toy.cut_short)) as (_ & Hmet & _).
  split.
  - exact (Hpost [x61] false Toy.w0 (Response 503 [x6f; x6b] None)
             eq_refl eq_refl).
  - refine (Hmet Toy.cfg0 [true] Toy.w0 (Request (framed Toy.json_true) false)
              (Response 200 [x6f; x6b; x21] (Some 1%nat))
              _ eq_refl eq_refl eq_refl).
    discriminate.
Defined.

Lemma empty_chunk_skipped_witness :
  range_chunks (LD:=Toy.logdata) (Plat:=Toy.platform Toy.accept_all)
    Toy.cfg0 Toy.four_records
    ([fst Toy.first_chunk] ++ Toy.empty_chunk :: [fst Toy.second_chunk])
    (GzipWriter [] []) Toy.w0
  = range_chunks (LD:=Toy.logdata) (Plat:=Toy.platform Toy.accept_all)
      Toy.cfg0 Toy.four_records
      ([fst Toy.first_chunk] ++ [fst Toy.second_chunk])
      (GzipWriter [] []) Toy.w0.
Proof.
  apply (empty_chunk_skipped (LD:=Toy.logdata)
           (Plat:=Toy.platform Toy.accept_all) Toy.cfg0 Toy.four_records
           [fst Toy.first_chunk] Toy.empty_chunk [fst Toy.second_chunk]
           (GzipWriter [] []) Toy.w0); reflexivity.
Defined.

Lemma pushLogData_partial_failure_witness :
  fst (pushLogData (LD:=Toy.logdata) (Plat:=Toy.platform Toy.refuse_second)
         Toy.cfg0 Toy.four_records Toy.w0)
  = (2, Some (partialLogs Toy.refused [[x65; x66; x67]; [x68]])).
Proof.
  refine (proj1 (pushLogData_partial_failure bool (list bool) (list bool) bytes
            (fun _ r => inr r) (Plat:=Toy.platform Toy.refuse_second)
            Toy.cfg0 Toy.four_records Toy.w0
            [Toy.first_chunk] Toy.second_chunk []
            (GzipWriter [] []) 0
            (sent_world (entered Toy.w0) (Request [x61; x62; x63; x64] false)
               [drained])
            Toy.refused _ _ _ _ _ _)).
  - reflexivity.
  - reflexivity.
  - reflexivity.
  - discriminate.
  - discriminate.
  - reflexivity.
Defined.

Lemma stop_waits_for_pushes_witness :
  let push := trace (pushMetricsData (Conv:=Toy.converters)
                       (Plat:=Toy.platform Toy.accept_all)
                       Toy.cfg0 Toy.two_events) Toy.w0 in
  let busy := System 1 [[EvWgDone]; stop_program] in
  reachable (System 0 [push; stop_program]) busy
  /\ in_flight [EvWgDone] = true
  /\ forall i s', ~ step busy i EvWgWait s'.
Proof.
  intros push busy.
  pose (req := Request (framed Toy.json_true ++ framed Toy.json_false) false).
  assert (Hreach : reachable (System 0 [push; stop_program]) busy).
  { apply (reach_step _ (System 1 [[EvDo req; EvWgDone]; stop_program])
             0%nat (EvDo req)).
    - apply (reach_step _ (System 0 [push; stop_program]) 0%nat EvWgAdd).
      + apply reach_start.
      + refine (step_thread (System 0 [push; stop_program]) 0%nat EvWgAdd
                  [EvDo req; EvWgDone] eq_refl _).
        intros H. discriminate H.
    - refine (step_thread (System 1 [[EvDo req; EvWgDone]; stop_program])
                0%nat (EvDo req) [EvWgDone] eq_refl _).
      intros H. discriminate H. }
  split; [exact Hreach|]. split; [reflexivity|].
  intros i s' Hstep.
  assert (Hps : Forall (goroutine (Conv:=Toy.converters) (LD:=Toy.logdata)
                          (Plat:=Toy.platform Toy.accept_all))
                  [push; stop_program]).
  { constructor; [left; apply prog_metrics|].
    constructor; [right; reflexivity | constructor]. }
  pose proof (proj1 (stop_waits_for_pushes (Conv:=Toy.converters)
                       (LD:=Toy.logdata) (Plat:=Toy.platform Toy.accept_all)
                       [push; stop_program] busy Hps Hreach) i s' Hstep)
    as Hnone.
  inversion Hnone as [|p ps Hp Hrest]. discriminate Hp.
Defined.

(** * Further properties of the logs loop *)

Section LoopSteps.
Context `{PD : PData} {Conv : Converters} {LD : LogData} {Plat : Platform}.
Variables (cfg : Config) (ld : Logs).

(** One turn of the loop, spelled out. *)
Lemma range_chunks_cons (c : eventsBuf) (rest : list eventsBuf)
    (z : gzip_Writer) (w : world) :
  range_chunks cfg ld (c :: rest) z w =
  match err c with
  | Some e => ((z, (numLogs ld (index c), Some e)), w)
  | None =>
      if len (buf c) =? 0 then range_chunks cfg ld rest z w
      else if (len (buf c) <=? 1500) || DisableCompression cfg then
        match postEvents (buf c) false w with
        | (Some e, w1) =>
            ((z, (numLogs ld (index c),
                  Some (partialLogs e (subLogs ld (index c))))), w1)
        | (None, w1) => range_chunks cfg ld rest z w1
        end
      else
        match write_error (buf c) with
        | Some msg =>
            ((z, (numLogs ld (index c), Some (permanent (errorString msg)))),
             logged w [EvGzWrite (buf c)])
        | None =>
            let zf := GzipWriter (gz_in z ++ buf c)
                                 (gzip_flushed (gz_in z ++ buf c)) in
            match postEvents (gz_out zf) true
                    (logged w [EvGzWrite (buf c); EvGzFlush]) with
            | (Some e, w1) =>
                ((zf, (numLogs ld (index c),
                       Some (partialLogs e (subLogs ld (index c))))), w1)
            | (None, w1) =>
                range_chunks cfg ld rest (GzipWriter [] [])
                  (logged w1 [EvGzReset])
            end
        end
  end.
Proof.
  simpl. destruct (err c); [reflexivity|].
  destruct (len (buf c) =? 0); [reflexivity|].
  destruct ((len (buf c) <=? 1500) || DisableCompression cfg).
  - unfold bind. destruct (postEvents (buf c) false w) as [[e|] w1]; reflexivity.
  - unfold bind, gz_Write, gz_Flush, gz_Reset, bind, ret, emit, logged.
    destruct (write_error (buf c)); [reflexivity|].
    cbn [wg zippers built wire bodies log gz_in gz_out].
    rewrite <- app_assoc. cbn [app].
    match goal with
    | |- context [postEvents ?b ?f ?W] => destruct (postEvents b f W) as [[e|] w1]
    end; reflexivity.
Qed.

Lemma postEvents_wire (b : bytes) (c : bool) (w : world) :
  match fst (postEvents b c w) with
  | None => wire (snd (postEvents b c w)) = wire w ++ [Request b c]
  | Some _ =>
      wire (snd (postEvents b c w)) = wire w
      \/ wire (snd (postEvents b c w)) = wire w ++ [Request b c]
  end.
Proof.
  rewrite postEvents_eq.
  destruct (request_error (built w)); simpl; [auto|].
  destruct (round_trip (List.length (wire w)) (Request b c)); simpl; [auto|].
  destruct (rejected (StatusCode r)); auto.
Qed.

Lemma postEvents_http_only (b : bytes) (c : bool) (w w' : world) :
  same_http w w' ->
  fst (postEvents b c w) = fst (postEvents b c w')
  /\ same_http (snd (postEvents b c w)) (snd (postEvents b c w')).
Proof.
  intros [Hb Hw]. unfold same_http. rewrite !postEvents_eq, Hb, Hw.
  destruct (request_error (built w')); simpl; rewrite ?Hb, ?Hw; [auto|].
  destruct (round_trip (List.length (wire w')) (Request b c)); simpl;
    rewrite ?Hb, ?Hw; auto.
Qed.

Lemma postEvents_built (b : bytes) (c : bool) (w : world) :
  built (snd (postEvents b c w)) = S (built w).
Proof.
  rewrite postEvents_eq.
  destruct (request_error (built w)); simpl; [reflexivity|].
  destruct (round_trip (List.length (wire w)) (Request b c)); reflexivity.
Qed.

End LoopSteps.

Section LoopFacts.
Context `{PD : PData} {Conv : Converters} {LD : LogData} {Plat : Platform}.
Variables (cfg : Config) (ld : Logs).

Lemma deliveries_skip (c : eventsBuf) (rest : list eventsBuf) :
  (len (buf c) =? 0) = true ->
  deliveries cfg (c :: rest) = deliveries cfg rest.
Proof.
  intros H. unfold deliveries, nonempty. simpl. rewrite H. reflexivity.
Qed.

Lemma deliveries_keep (c : eventsBuf) (rest : list eventsBuf) :
  (len (buf c) =? 0) = false ->
  deliveries cfg (c :: rest) = chunk_wire cfg c :: deliveries cfg rest.
Proof.
  intros H. unfold deliveries, nonempty. simpl. rewrite H. reflexivity.
Qed.

(** What the loop has put on the wire is a beginning of the deliveries of
    its chunks; when it returns no error it is all of them, the count is
    zero and no chunk carried an error. *)
Lemma range_chunks_deliveries (chunks : list eventsBuf) :
  forall (z : gzip_Writer) (w : world),
    gz_in z = [] ->
    exists sent rest,
      wire (snd (range_chunks cfg ld chunks z w)) = wire w ++ sent
      /\ deliveries cfg chunks = sent ++ rest
      /\ (snd (snd (fst (range_chunks cfg ld chunks z w))) = None ->
          fst (snd (fst (range_chunks cfg ld chunks z w))) = 0
          /\ rest = []
          /\ Forall (fun c => err c = None) chunks).
Proof.
  induction chunks as [|c chunks IH]; intros z w Hz.
  - exists [], []. simpl. rewrite app_nil_r. auto.
  - rewrite range_chunks_cons.
    destruct (err c) eqn:He.
    { exists [], (deliveries cfg (c :: chunks)). simpl.
      rewrite app_nil_r. split; [reflexivity|]. split; [reflexivity|].
      discriminate. }
    destruct (len (buf c) =? 0) eqn:Hlen.
    { destruct (IH z w Hz) as (sent & rest & Hw & Hd & Hok).
      exists sent, rest. rewrite deliveries_skip by exact Hlen.
      split; [exact Hw|]. split; [exact Hd|].
      intros Hnil. destruct (Hok Hnil) as (H0 & Hr & Hall). auto. }
    rewrite deliveries_keep by exact Hlen.
    destruct ((len (buf c) <=? 1500) || DisableCompression cfg) eqn:Hdec.
    + rewrite (chunk_wire_raw cfg c Hdec).
      pose proof (postEvents_wire (buf c) false w) as Hp.
      destruct (postEvents (buf c) false w) as [[e|] w1]; simpl in Hp |- *.
      * destruct Hp as [Hp | Hp]; rewrite Hp.
        -- exists [], (Request (buf c) false :: deliveries cfg chunks).
           rewrite app_nil_r. split; [reflexivity|]. split; [reflexivity|].
           discriminate.
        -- exists [Request (buf c) false], (deliveries cfg chunks).
           split; [reflexivity|]. split; [reflexivity|]. discriminate.
      * destruct (IH z w1 Hz) as (sent & rest & Hw & Hd & Hok).
        exists (Request (buf c) false :: sent), rest.
        split; [rewrite Hw, Hp, <- app_assoc; reflexivity|].
        split; [rewrite Hd; reflexivity|].
        intros Hnil. destruct (Hok Hnil) as (H0 & Hr & Hall). auto.
    + rewrite (chunk_wire_gzip cfg c Hdec).
      destruct (write_error (buf c)).
      { exists [], (Request (gzip_flushed (buf c)) true :: deliveries cfg chunks).
        simpl. rewrite app_nil_r. split; [reflexivity|].
        split; [reflexivity|]. discriminate. }
      rewrite Hz. cbn [app gz_out].
      pose proof (postEvents_wire (gzip_flushed (buf c)) true
                    (logged w [EvGzWrite (buf c); EvGzFlush])) as Hp.
      destruct (postEvents (gzip_flushed (buf c)) true
                  (logged w [EvGzWrite (buf c); EvGzFlush])) as [[e|] w1];
        simpl in Hp |- *.
      * destruct Hp as [Hp | Hp]; rewrite Hp.
        -- exists [], (Request (gzip_flushed (buf c)) true
                       :: deliveries cfg chunks).
           rewrite app_nil_r. split; [reflexivity|]. split; [reflexivity|].
           discriminate.
        -- exists [Request (gzip_flushed (buf c)) true], (deliveries cfg chunks).
           split; [reflexivity|]. split; [reflexivity|]. discriminate.
      * destruct (IH (GzipWriter [] []) (logged w1 [EvGzReset]) eq_refl)
          as (sent & rest & Hw & Hd & Hok).
        exists (Request (gzip_flushed (buf c)) true :: sent), rest.
        split; [rewrite Hw; simpl; rewrite Hp, <- app_assoc; reflexivity|].
        split; [rewrite Hd; reflexivity|].
        intros Hnil. destruct (Hok Hnil) as (H0 & Hr & Hall). auto.
Qed.

(** Every error of the loop is raised at one of its chunks, with the count
    from that chunk, in one of three ways. *)
Lemma range_chunks_stopped (chunks : list eventsBuf) :
  forall (z : gzip_Writer) (w : world),
    match snd (fst (range_chunks cfg ld chunks z w)) with
    | (n, None) => n = 0
    | (n, Some e) =>
        exists c, In c chunks /\ n = numLogs ld (index c) /\ stopped_at ld c e
    end.
Proof.
  induction chunks as [|c chunks IH]; intros z w; [reflexivity|].
  assert (Hlater : forall z' w',
            match snd (fst (range_chunks cfg ld chunks z' w')) with
            | (n, None) => n = 0
            | (n, Some e) =>
                exists c', In c' (c :: chunks) /\ n = numLogs ld (index c')
                           /\ stopped_at ld c' e
            end).
  { intros z' w'. specialize (IH z' w').
    destruct (snd (fst (range_chunks cfg ld chunks z' w'))) as [n [e|]];
      [|exact IH].
    destruct IH as (c' & Hin & Hn & Hs). exists c'.
    split; [right; exact Hin | auto]. }
  rewrite range_chunks_cons.
  destruct (err c) eqn:He.
  { simpl. exists c. split; [left; reflexivity|].
    split; [reflexivity | left; exact He]. }
  destruct (len (buf c) =? 0); [apply Hlater|].
  destruct ((len (buf c) <=? 1500) || DisableCompression cfg).
  - destruct (postEvents (buf c) false w) as [[e|] w1]; [|apply Hlater].
    simpl. exists c. split; [left; reflexivity|]. split; [reflexivity|].
    right; right. split; [exact He | eexists; reflexivity].
  - destruct (write_error (buf c)) as [msg|] eqn:Hwr.
    { simpl. exists c. split; [left; reflexivity|]. split; [reflexivity|].
      right; left. split; [exact He|]. exists msg. auto. }
    cbv zeta.
    match goal with
    | |- context [postEvents ?b ?f ?W] =>
        destruct (postEvents b f W) as [[e|] w1]
    end; [|apply Hlater].
    simpl. exists c. split; [left; reflexivity|]. split; [reflexivity|].
    right; right. split; [exact He | eexists; reflexivity].
Qed.

(** The loop reads the world through its HTTP side only. *)
Lemma range_chunks_http_only (chunks : list eventsBuf) :
  forall (z : gzip_Writer) (w w' : world),
    same_http w w' ->
    fst (range_chunks cfg ld chunks z w) = fst (range_chunks cfg ld chunks z w')
    /\ same_http (snd (range_chunks cfg ld chunks z w))
                 (snd (range_chunks cfg ld chunks z w')).
Proof.
  induction chunks as [|c chunks IH]; intros z w w' Hs; [simpl; auto|].
  rewrite !range_chunks_cons.
  destruct (err c); [simpl; auto|].
  destruct (len (buf c) =? 0); [apply IH; exact Hs|].
  destruct ((len (buf c) <=? 1500) || DisableCompression cfg).
  - destruct (postEvents_http_only (buf c) false w w' Hs) as [Hr Hs1].
    destruct (postEvents (buf c) false w) as [r1 w1],
             (postEvents (buf c) false w') as [r1' w1'].
    simpl in Hr, Hs1. subst r1'.
    destruct r1; [simpl; auto | apply IH; exact Hs1].
  - destruct (write_error (buf c)); [simpl; auto|].
    cbv zeta.
    assert (Hs0 : same_http (logged w [EvGzWrite (buf c); EvGzFlush])
                            (logged w' [EvGzWrite (buf c); EvGzFlush]))
      by exact Hs.
    match goal with
    | |- context [postEvents ?b ?f (logged w ?tr)] =>
        destruct (postEvents_http_only b f _ _ Hs0) as [Hr Hs1];
        destruct (postEvents b f (logged w tr)) as [r1 w1],
                 (postEvents b f (logged w' tr)) as [r1' w1']
    end.
    simpl in Hr, Hs1. subst r1'.
    destruct r1; [simpl; auto|]. apply IH. exact Hs1.
Qed.

(** Chunks that are all ready and empty leave everything as it is. *)
Lemma range_chunks_all_empty (chunks : list eventsBuf)
    (z : gzip_Writer) (w : world) :
  Forall (fun c => err c = None /\ len (buf c) = 0) chunks ->
  range_chunks cfg ld chunks z w = ((z, (0, None)), w).
Proof.
  induction 1 as [|c chunks [He Hl] _ IH]; [reflexivity|].
  rewrite range_chunks_cons, He, Hl. exact IH.
Qed.

End LoopFacts.

(** * Further properties of the logs push *)

Section LogsPushFacts.
Context `{PD : PData} {Conv : Converters} {LD : LogData} {Plat : Platform}.

(** X1: the requests a logs push hands to the HTTP client are a beginning
    of the requests of its non-empty chunks, in the order of the chunks:
    no chunk is sent twice, out of order, or before an earlier one. *)
Theorem logs_requests_in_order (cfg : Config) (ld : Logs) (w : world) :
  exists sent rest,
    wire (snd (pushLogData cfg ld w)) = wire w ++ sent
    /\ deliveries cfg (chunkEvents cfg ld) = sent ++ rest.
Proof.
  rewrite pushLogData_eq. cbn [snd].
  destruct (range_chunks_deliveries cfg ld (chunkEvents cfg ld)
              (GzipWriter [] []) (entered w) eq_refl)
    as (sent & rest & Hw & Hd & _).
  exists sent, rest. split; [exact Hw | exact Hd].
Qed.

(** X2: when a logs push returns a nil error, its count is zero, no chunk
    carried an error, and every non-empty chunk was handed to the HTTP
    client, once and in order. *)
Theorem logs_success_complete (cfg : Config) (ld : Logs) (w : world) :
  snd (fst (pushLogData cfg ld w)) = None ->
  fst (fst (pushLogData cfg ld w)) = 0
  /\ wire (snd (pushLogData cfg ld w))
     = wire w ++ deliveries cfg (chunkEvents cfg ld)
  /\ Forall (fun c => err c = None) (chunkEvents cfg ld).
Proof.
  rewrite pushLogData_eq. cbn [fst snd]. intros Hnil.
  destruct (range_chunks_deliveries cfg ld (chunkEvents cfg ld)
              (GzipWriter [] []) (entered w) eq_refl)
    as (sent & rest & Hw & Hd & Hok).
  destruct (Hok Hnil) as (H0 & Hr & Hall). subst rest.
  rewrite app_nil_r in Hd.
  split; [exact H0|]. split; [|exact Hall].
  rewrite Hd. exact Hw.
Qed.

(** X3: a chunk that carries an error ends the logs push: the push returns
    the count from that chunk with the chunk's own error, unwrapped, and
    builds and sends nothing for that chunk or any later one. *)
Theorem logs_error_chunk (cfg : Config) (ld : Logs) (w : world)
    (pre : list eventsBuf) (c : eventsBuf) (post : list eventsBuf)
    (z1 : gzip_Writer) (n : Z) (w1 : world) (e : error) :
  chunkEvents cfg ld = pre ++ c :: post ->
  range_chunks cfg ld pre (GzipWriter [] []) (entered w)
  = ((z1, (n, None)), w1) ->
  err c = Some e ->
  fst (pushLogData cfg ld w) = (numLogs ld (index c), Some e)
  /\ wire (snd (pushLogData cfg ld w)) = wire w1
  /\ built (snd (pushLogData cfg ld w)) = built w1.
Proof.
  intros Hch Hpre He.
  destruct (range_chunks_through cfg ld pre (GzipWriter [] []) (entered w)
              z1 n w1 eq_refl Hpre) as [_ Hthrough].
  rewrite pushLogData_eq, Hch, Hthrough, range_chunks_cons, He.
  auto.
Qed.

(** X4: when the gzip writer refuses a chunk that is to be compressed, the
    logs push returns the count from that chunk with the writer's error
    marked permanent, without a remainder, and builds and sends nothing
    for that chunk or any later one. *)
Theorem logs_write_failure (cfg : Config) (ld : Logs) (w : world)
    (pre : list eventsBuf) (c : eventsBuf) (post : list eventsBuf)
    (z1 : gzip_Writer) (n : Z) (w1 : world) (msg : string) :
  chunkEvents cfg ld = pre ++ c :: post ->
  range_chunks cfg ld pre (GzipWriter [] []) (entered w)
  = ((z1, (n, None)), w1) ->
  err c = None ->
  wanted (DisableCompression cfg) (len (buf c)) = true ->
  write_error (buf c) = Some msg ->
  fst (pushLogData cfg ld w)
  = (numLogs ld (index c), Some (permanent (errorString msg)))
  /\ wire (snd (pushLogData cfg ld w)) = wire w1
  /\ built (snd (pushLogData cfg ld w)) = built w1.
Proof.
  intros Hch Hpre He Hwant Hwr.
  destruct (range_chunks_through cfg ld pre (GzipWriter [] []) (entered w)
              z1 n w1 eq_refl Hpre) as [_ Hthrough].
  assert (Hraw : (len (buf c) <=? 1500) || DisableCompression cfg = false)
    by (rewrite wanted_raw, Hwant; reflexivity).
  assert (Hlen : (len (buf c) =? 0) = false)
    by (apply wanted_iff in Hwant; destruct Hwant; lia).
  rewrite pushLogData_eq, Hch, Hthrough, range_chunks_cons, He, Hlen, Hraw, Hwr.
  auto.
Qed.

(** X5: a logs push returns a nil error only with count zero; every error
    it returns comes with the count from one of its chunks and is that
    chunk's own error, a gzip write error marked permanent, or a
    partial-failure error that carries the remainder from that chunk. *)
Theorem logs_result_classification (cfg : Config) (ld : Logs) (w : world) :
  match fst (pushLogData cfg ld w) with
  | (n, None) => n = 0
  | (n, Some e) =>
      exists c, In c (chunkEvents cfg ld)
                /\ n = numLogs ld (index c) /\ stopped_at ld c e
  end.
Proof.
  rewrite pushLogData_eq. cbn [fst].
  apply range_chunks_stopped.
Qed.

(** X6: when every chunk is ready and empty, and so when there is no
    chunk at all, a logs push returns zero and nil without building a
    request: nothing reaches the wire and no response is received. *)
Theorem logs_nothing_to_send (cfg : Config) (ld : Logs) (w : world) :
  Forall (fun c => err c = None /\ len (buf c) = 0) (chunkEvents cfg ld) ->
  fst (pushLogData cfg ld w) = (0, None)
  /\ built (snd (pushLogData cfg ld w)) = built w
  /\ wire (snd (pushLogData cfg ld w)) = wire w
  /\ bodies (snd (pushLogData cfg ld w)) = bodies w.
Proof.
  intros Hall. rewrite pushLogData_eq.
  rewrite (range_chunks_all_empty cfg ld _ _ _ Hall). auto.
Qed.

(** A logs push reads the world through its HTTP side only. *)
Lemma pushLogData_http_only (cfg : Config) (ld : Logs) (w w' : world) :
  same_http w w' ->
  fst (pushLogData cfg ld w) = fst (pushLogData cfg ld w')
  /\ same_http (snd (pushLogData cfg ld w)) (snd (pushLogData cfg ld w')).
Proof.
  intros Hs. rewrite !pushLogData_eq. cbn [fst snd].
  assert (Hent : same_http (entered w) (entered w')) by exact Hs.
  destruct (range_chunks_http_only cfg ld (chunkEvents cfg ld)
              (GzipWriter [] []) _ _ Hent) as [Hr Hs1].
  rewrite Hr. split; [reflexivity | exact Hs1].
Qed.

End LogsPushFacts.

(** * Further properties of the metrics and traces pushes *)

Lemma len_app_cons_nonzero {A} (pre : list A) (a : A) (post : list A) :
  (len (pre ++ a :: post) =? 0) = false.
Proof.
  unfold len. apply Z.eqb_neq. rewrite length_app. simpl length. lia.
Qed.

Section BatchFacts.
Context `{PD : PData} {Conv : Converters} {LD : LogData} {Plat : Platform}.

Lemma encode_events_first_error (pre : list Event) (jss : list bytes)
    (e : Event) (post : list Event) (msg : string) :
  marshalled pre jss ->
  json_Marshal e = inl msg ->
  forall buf, encode_events (pre ++ e :: post) buf = inl msg.
Proof.
  induction 1 as [|e0 js pre jss He0 _ IH]; intros He buf; simpl.
  - unfold Encoder_Encode. rewrite He. reflexivity.
  - unfold Encoder_Encode at 1. rewrite He0. apply IH, He.
Qed.

Lemma encodeBody_ok (evs : list Event) (d : bool) (w : world)
    (body : bytes) (c : bool) :
  fst (encodeBody evs d w) = (body, c, None) ->
  exists raw, encode_events evs [] = inr raw
              /\ Request body c = batch_request d raw.
Proof.
  unfold encodeBody.
  destruct (encode_events evs []) as [msg|raw]; [discriminate|].
  intros Hg. exists raw. split; [reflexivity|].
  pose proof (getReader_decision raw d w) as Hdec.
  rewrite Hg in Hdec. destruct Hdec as [-> ->]. reflexivity.
Qed.

Lemma batch_world_http_only (evs : list Event) (d : bool) (w w' : world) :
  same_http w w' -> same_http (batch_world evs d w) (batch_world evs d w').
Proof.
  intros [Hb Hw]. unfold batch_world.
  pose proof (encodeBody_value evs d w w') as Hv.
  pose proof (encodeBody_http evs d w) as (_ & Hb1 & Hw1 & _).
  pose proof (encodeBody_http evs d w') as (_ & Hb2 & Hw2 & _).
  destruct (encodeBody evs d w) as [[[body c] r] w2],
           (encodeBody evs d w') as [[[body' c'] r'] w2'].
  simpl in Hv, Hb1, Hw1, Hb2, Hw2. inversion Hv; subst.
  assert (Hs : same_http w2 w2') by (split; congruence).
  destruct r'; [exact Hs|].
  apply postEvents_http_only, Hs.
Qed.

Lemma pushMetricsData_http_only (cfg : Config) (md : Metrics) (w w' : world) :
  same_http w w' ->
  fst (pushMetricsData cfg md w) = fst (pushMetricsData cfg md w')
  /\ same_http (snd (pushMetricsData cfg md w)) (snd (pushMetricsData cfg md w')).
Proof.
  intros Hs. split.
  - destruct Hs as [Hb Hw].
    rewrite !pushMetricsData_result, Hb, Hw.
    destruct (metricDataToSplunk cfg md) as [[|dp dps] pre]; [reflexivity|].
    rewrite (encodeBody_value _ _ w w'). reflexivity.
  - rewrite !pushMetricsData_world.
    destruct (fst (metricDataToSplunk cfg md)) as [|dp dps]; [exact Hs|].
    assert (Hadd : same_http (snd (wg_Add 1 w)) (snd (wg_Add 1 w')))
      by exact Hs.
    exact (batch_world_http_only (dp :: dps) (DisableCompression cfg) _ _ Hadd).
Qed.

Lemma pushTraceData_http_only (cfg : Config) (td : Traces) (w w' : world) :
  same_http w w' ->
  fst (pushTraceData cfg td w) = fst (pushTraceData cfg td w')
  /\ same_http (snd (pushTraceData cfg td w)) (snd (pushTraceData cfg td w')).
Proof.
  intros Hs. split.
  - destruct Hs as [Hb Hw].
    rewrite !pushTraceData_result, Hb, Hw.
    destruct (traceDataToSplunk cfg td) as [[|ev evs] pre]; [reflexivity|].
    rewrite (encodeBodyEvents_value _ _ w w'). reflexivity.
  - rewrite !pushTraceData_world.
    destruct (fst (traceDataToSplunk cfg td)) as [|ev evs]; [exact Hs|].
    assert (Hadd : same_http (snd (wg_Add 1 w)) (snd (wg_Add 1 w')))
      by exact Hs.
    exact (batch_world_http_only (ev :: evs) (DisableCompression cfg) _ _ Hadd).
Qed.

End BatchFacts.

Section BatchExtras.
Context `{PD : PData} {Conv : Converters} {LD : LogData} {Plat : Platform}.

(** X7: the HTTP code inlined in [pushMetricsData] does what
    [sendSplunkEvents] and [postEvents] do for [pushTraceData]: on batches
    that convert to the same events and pre-dropped count and have the same
    record count, the two pushes return the same values and leave the same
    world. *)
Theorem metrics_push_is_traces_push (cfg : Config) (md : Metrics) (td : Traces)
    (w : world) :
  metricDataToSplunk cfg md = traceDataToSplunk cfg td ->
  numMetricPoint md = SpanCount td ->
  pushMetricsData cfg md w = pushTraceData cfg td w.
Proof.
  intros Hconv Hcount. apply injective_projections.
  - rewrite pushMetricsData_result, pushTraceData_result, Hconv, Hcount.
    reflexivity.
  - rewrite pushMetricsData_world, pushTraceData_world, Hconv. reflexivity.
Qed.

Lemma pushMetricsData_unserializable (cfg : Config) (md : Metrics) (w : world)
    (msg : string) :
  fst (metricDataToSplunk cfg md) <> [] ->
  encode_events (fst (metricDataToSplunk cfg md)) [] = inl msg ->
  fst (pushMetricsData cfg md w)
  = (numMetricPoint md, Some (permanent (errorString msg)))
  /\ only_registered w (snd (pushMetricsData cfg md w)).
Proof.
  intros Hne Henc. unfold only_registered.
  unfold pushMetricsData, bind, wg_Add, wg_Done, emit, ret.
  destruct (metricDataToSplunk cfg md) as [[|dp dps] pre]; [contradiction|].
  simpl fst in Henc. rewrite len_cons_nonzero.
  unfold encodeBody. rewrite Henc. unfold ret. simpl.
  rewrite <- app_assoc. simpl. repeat split; try reflexivity. lia.
Qed.

Lemma pushTraceData_unserializable (cfg : Config) (td : Traces) (w : world)
    (msg : string) :
  fst (traceDataToSplunk cfg td) <> [] ->
  encode_events (fst (traceDataToSplunk cfg td)) [] = inl msg ->
  fst (pushTraceData cfg td w)
  = (SpanCount td, Some (permanent (errorString msg)))
  /\ only_registered w (snd (pushTraceData cfg td w)).
Proof.
  intros Hne Henc. unfold only_registered.
  unfold pushTraceData, sendSplunkEvents, bind, wg_Add, wg_Done, emit, ret.
  destruct (traceDataToSplunk cfg td) as [[|ev evs] pre]; [contradiction|].
  simpl fst in Henc. rewrite len_cons_nonzero.
  unfold encodeBodyEvents. rewrite Henc. unfold ret. simpl.
  rewrite <- app_assoc. simpl. repeat split; try reflexivity. lia.
Qed.

(** X8: encoding stops at the first event that cannot be serialized: a
    metrics push, and likewise a traces push, whose events hold such an
    event returns the full record count with that event's error marked
    permanent, and does nothing else: no writer is taken from the pool, no
    request is built, nothing reaches the wire. *)
Theorem first_unserializable_event (cfg : Config) (w : world) :
  (forall (md : Metrics) (pre : list Event) (jss : list bytes) (e : Event)
          (post : list Event) (msg : string),
     marshalled pre jss ->
     json_Marshal e = inl msg ->
     fst (metricDataToSplunk cfg md) = pre ++ e :: post ->
     fst (pushMetricsData cfg md w)
     = (snd (MetricAndDataPointCount md), Some (permanent (errorString msg)))
     /\ only_registered w (snd (pushMetricsData cfg md w)))
  /\ (forall (td : Traces) (pre : list Event) (jss : list bytes) (e : Event)
             (post : list Event) (msg : string),
        marshalled pre jss ->
        json_Marshal e = inl msg ->
        fst (traceDataToSplunk cfg td) = pre ++ e :: post ->
        fst (pushTraceData cfg td w)
        = (SpanCount td, Some (permanent (errorString msg)))
        /\ only_registered w (snd (pushTraceData cfg td w))).
Proof.
  split.
  - intros md pre jss e post msg Hpre He Hm.
    pose proof (encode_events_first_error pre jss e post msg Hpre He []) as Henc.
    replace (snd (MetricAndDataPointCount md)) with (numMetricPoint md)
      by (unfold numMetricPoint; destruct (MetricAndDataPointCount md);
          reflexivity).
    apply pushMetricsData_unserializable; rewrite Hm;
      [destruct pre; discriminate | exact Henc].
  - intros td pre jss e post msg Hpre He Ht.
    pose proof (encode_events_first_error pre jss e post msg Hpre He []) as Henc.
    apply pushTraceData_unserializable; rewrite Ht;
      [destruct pre; discriminate | exact Henc].
Qed.

(** X9: what a push returns, and what it builds and sends, does not depend
    on the writers the pool holds nor on the state they were left in: the
    result and the HTTP side of the world are the same from any pool. *)
Theorem push_ignores_pool (cfg : Config) (md : Metrics) (td : Traces)
    (ld : Logs) (w : world) (idle : list gzip_Writer) :
  (fst (pushMetricsData cfg md (with_pool w idle)) = fst (pushMetricsData cfg md w)
   /\ same_http (snd (pushMetricsData cfg md (with_pool w idle)))
                (snd (pushMetricsData cfg md w)))
  /\ (fst (pushTraceData cfg td (with_pool w idle)) = fst (pushTraceData cfg td w)
      /\ same_http (snd (pushTraceData cfg td (with_pool w idle)))
                   (snd (pushTraceData cfg td w)))
  /\ (fst (pushLogData cfg ld (with_pool w idle)) = fst (pushLogData cfg ld w)
      /\ same_http (snd (pushLogData cfg ld (with_pool w idle)))
                   (snd (pushLogData cfg ld w))).
Proof.
  assert (Hs : same_http (with_pool w idle) w) by (split; reflexivity).
  split; [|split].
  - apply pushMetricsData_http_only, Hs.
  - apply pushTraceData_http_only, Hs.
  - apply pushLogData_http_only, Hs.
Qed.

Lemma batch_acknowledged (evs : list Event) (d : bool) (w w1 : world) :
  same_http w1 w ->
  (match fst (encodeBody evs d w) with
   | (_, _, Some _) => False
   | (body, compressed, None) =>
       request_error (built w) = None
       /\ exists resp,
            round_trip (List.length (wire w)) (Request body compressed) = inr resp
            /\ rejected (StatusCode resp) = false
   end) ->
  acknowledged d evs w (batch_world evs d w1).
Proof.
  intros [Hb Hw] Hok. unfold batch_world.
  pose proof (encodeBody_encoding evs d w) as He.
  destruct (batch_encoding evs d) as [msg|[body c]] eqn:Henc.
  - destruct (fst (encodeBody evs d w)) as [[b0 c0] r0].
    simpl in He. subst r0. contradiction.
  - simpl in He. rewrite He in Hok. destruct Hok as (Hreq & resp & Hrt & Hrej).
    pose proof (encodeBody_value evs d w w1) as Hv. rewrite He in Hv.
    pose proof (encodeBody_http evs d w1) as (_ & Hb1 & Hw1 & _).
    destruct (encodeBody evs d w1) as [[[body' c'] r] w2].
    simpl in Hv, Hb1, Hw1. injection Hv as Hbody Hc Hr. subst body' c' r.
    exists (Request body c), resp. split; [exact Henc|].
    split; [|split; [exact Hrt | apply rejected_false_iff, Hrej]].
    rewrite postEvents_eq, Hb1, Hw1, Hb, Hw, Hreq. cbv zeta. rewrite Hrt.
    simpl. rewrite Hw1, Hw. reflexivity.
Qed.

(** X10: a nil error from a metrics push that had events, and likewise
    from a traces push that had events, means the batch went out and was
    accepted: the whole encoded body was handed to the HTTP client as one
    request, and the answer to that request had a status code in
    [200,300). *)
Theorem success_is_acknowledged (cfg : Config) (w : world) :
  (forall md : Metrics,
     fst (metricDataToSplunk cfg md) <> [] ->
     snd (fst (pushMetricsData cfg md w)) = None ->
     acknowledged (DisableCompression cfg) (fst (metricDataToSplunk cfg md)) w
                  (snd (pushMetricsData cfg md w)))
  /\ (forall td : Traces,
        fst (traceDataToSplunk cfg td) <> [] ->
        snd (fst (pushTraceData cfg td w)) = None ->
        acknowledged (DisableCompression cfg) (fst (traceDataToSplunk cfg td)) w
                     (snd (pushTraceData cfg td w))).
Proof.
  assert (Hadd : same_http (snd (wg_Add 1 w)) w) by (split; reflexivity).
  split.
  - intros md Hm Hmr.
    rewrite pushMetricsData_result in Hmr. rewrite pushMetricsData_world.
    destruct (metricDataToSplunk cfg md) as [[|dp dps] pre];
      [contradiction|]. cbn [fst] in *.
    pose proof (batch_acknowledged (dp :: dps) (DisableCompression cfg) w
                  (snd (wg_Add 1 w)) Hadd) as Hack.
    unfold batch_world in Hack. apply Hack.
    destruct (fst (encodeBody (dp :: dps) (DisableCompression cfg) w))
      as [[body c] [e|]]; [discriminate|].
    destruct (request_error (built w)); [discriminate|].
    split; [reflexivity|].
    destruct (round_trip (List.length (wire w)) (Request body c))
      as [msg|resp]; [discriminate|].
    exists resp. split; [reflexivity|].
    destruct (rejected (StatusCode resp)); [discriminate | reflexivity].
  - intros td Ht Htr.
    rewrite pushTraceData_result in Htr. rewrite pushTraceData_world.
    destruct (traceDataToSplunk cfg td) as [[|ev evs] pre];
      [contradiction|]. cbn [fst] in *.
    pose proof (batch_acknowledged (ev :: evs) (DisableCompression cfg) w
                  (snd (wg_Add 1 w)) Hadd) as Hack.
    unfold batch_world in Hack. apply Hack.
    change (encodeBody (ev :: evs) (DisableCompression cfg) w)
      with (encodeBodyEvents (ev :: evs) (DisableCompression cfg) w).
    destruct (fst (encodeBodyEvents (ev :: evs) (DisableCompression cfg) w))
      as [[body c] [e|]]; [discriminate|].
    destruct (request_error (built w)); [discriminate|].
    split; [reflexivity|].
    destruct (round_trip (List.length (wire w)) (Request body c))
      as [msg|resp]; [discriminate|].
    exists resp. split; [reflexivity|].
    destruct (rejected (StatusCode resp)); [discriminate | reflexivity].
Qed.

End BatchExtras.

(** * The compression decision on the wire *)

Section CompressionDecision.
Context `{PD : PData} {Conv : Converters} {LD : LogData} {Plat : Platform}.













End CompressionDecision.

(** * The further statements at work on the small instance *)

Lemma logs_success_complete_witness :
  wire (snd (pushLogData (LD:=Toy.logdata) (Plat:=Toy.platform Toy.accept_all)
               Toy.cfg0 Toy.four_records Toy.w0))
  = [Request [x61; x62; x63; x64] false; Request [x65; x66; x67; x68] false].
Proof.
  exact (proj1 (proj2 (logs_success_complete (LD:=Toy.logdata)
                         (Plat:=Toy.platform Toy.accept_all)
                         Toy.cfg0 Toy.four_records Toy.w0 eq_refl))).
Defined.

Lemma logs_error_chunk_witness :
  fst (pushLogData
         (LD:=Toy.scripted [Toy.small_chunk; Toy.failed_chunk; Toy.small_chunk])
         (Plat:=Toy.platform Toy.accept_all)
         Toy.cfg0 Toy.four_records Toy.w0)
  = (3, Some (permanent (errorString "cannot encode"))).
Proof.
  refine (proj1 (logs_error_chunk
            (LD:=Toy.scripted [Toy.small_chunk; Toy.failed_chunk; Toy.small_chunk])
            (Plat:=Toy.platform Toy.accept_all)
            Toy.cfg0 Toy.four_records Toy.w0
            [Toy.small_chunk] Toy.failed_chunk [Toy.small_chunk]
            (GzipWriter [] []) 0
            (sent_world (entered Toy.w0) (Request [x61; x62] false) [drained])
            (permanent (errorString "cannot encode")) _ _ _));
    reflexivity.
Defined.

Lemma logs_write_failure_witness :
  fst (pushLogData (LD:=Toy.scripted [Toy.small_chunk; Toy.big_chunk])
         (Plat:=Toy.broken_gzip) Toy.cfg0 Toy.four_records Toy.w0)
  = (3, Some (permanent (errorString "short write"))).
Proof.
  refine (proj1 (logs_write_failure
            (LD:=Toy.scripted [Toy.small_chunk; Toy.big_chunk])
            (Plat:=Toy.broken_gzip)
            Toy.cfg0 Toy.four_records Toy.w0
            [Toy.small_chunk] Toy.big_chunk []
            (GzipWriter [] []) 0
            (sent_world (entered Toy.w0) (Request [x61; x62] false) [drained])
            "short write" _ _ _ _ _));
    reflexivity.
Defined.

Lemma logs_nothing_to_send_witness :
  fst (pushLogData (LD:=Toy.logdata) (Plat:=Toy.platform Toy.accept_all)
         Toy.cfg0 [] Toy.w0) = (0, None).
Proof.
  refine (proj1 (logs_nothing_to_send (LD:=Toy.logdata)
                   (Plat:=Toy.platform Toy.accept_all) Toy.cfg0 [] Toy.w0 _)).
  repeat constructor.
Defined.

Lemma metrics_push_is_traces_push_witness :
  pushMetricsData (Conv:=Toy.converters) (Plat:=Toy.platform (Toy.answer 503))
    Toy.cfg0 Toy.two_events Toy.w0
  = pushTraceData (Conv:=Toy.converters) (Plat:=Toy.platform (Toy.answer 503))
      Toy.cfg0 Toy.two_events Toy.w0.
Proof.
  exact (metrics_push_is_traces_push (Conv:=Toy.converters)
           (Plat:=Toy.platform (Toy.answer 503))
           Toy.cfg0 Toy.two_events Toy.two_events Toy.w0 eq_refl eq_refl).
Defined.

Lemma first_unserializable_event_witness :
  fst (pushMetricsData (Conv:=Toy.picky) (Plat:=Toy.platform Toy.accept_all)
         Toy.cfg0 [true; false; true] Toy.w0)
  = (3, Some (permanent (errorString "unsupported value")))
  /\ fst (pushTraceData (Conv:=Toy.picky) (Plat:=Toy.platform Toy.accept_all)
            Toy.cfg0 [false; true] Toy.w0)
     = (2, Some (permanent (errorString "unsupported value"))).
Proof.
  destruct (first_unserializable_event (Conv:=Toy.picky)
              (Plat:=Toy.platform Toy.accept_all) Toy.cfg0 Toy.w0)
    as [Hm Ht].
  split.
  - refine (proj1 (Hm [true; false; true] [true] [Toy.json_true] false [true]
                     "unsupported value" _ eq_refl eq_refl)).
    repeat constructor.
  - refine (proj1 (Ht [false; true] [] [] false [true]
                     "unsupported value" _ eq_refl eq_refl)).
    constructor.
Defined.

Lemma success_is_acknowledged_witness :
  acknowledged (Conv:=Toy.converters) (Plat:=Toy.platform Toy.accept_all)
    false [true] Toy.w0
    (snd (pushMetricsData (Conv:=Toy.converters)
            (Plat:=Toy.platform Toy.accept_all) Toy.cfg0 [true] Toy.w0))
  /\ acknowledged (Conv:=Toy.converters) (Plat:=Toy.platform Toy.accept_all)
       false [false; true] Toy.w0
       (snd (pushTraceData (Conv:=Toy.converters)
               (Plat:=Toy.platform Toy.accept_all) Toy.cfg0 [false; true]
               Toy.w0)).
Proof.
  destruct (success_is_acknowledged (Conv:=Toy.converters)
              (Plat:=Toy.platform Toy.accept_all) Toy.cfg0 Toy.w0)
    as [Hm Ht].
  split.
  - refine (Hm [true] _ eq_refl). discriminate.
  - refine (Ht [false; true] _ eq_refl). discriminate.
Defined.


